(** * k8s-connection-monitor: socket-table decoding and connection aggregation

    A shallow embedding of
      - [pkg/connection/connection_linux.go] (decodeAddress, reverse,
        processINET, GetConnections),
      - [pkg/moby/moby.go] (Client.GetPids),
      - the connection loop of [Monitor.Collect] in the root package,
    together with the functions of the Go standard library they call.

    Conventions.  A Go [string] and a Go [[]byte] holding text are a Rocq
    [string] (a sequence of 8-bit characters); a [[]byte] holding decoded
    binary data and every Go integer is a [Z]; a Go function returning
    [(T, error)] returns a pair [T * option error], where [None] is the
    [nil] error; a [nil] slice is the empty list. *)

From Stdlib Require Import ZArith Ascii String DecimalString.
From stdpp Require Import gmap strings list fin_maps.

Local Open Scope string_scope.
Local Open Scope list_scope.
Local Open Scope Z_scope.

(** ** Errors *)

(** The error values the three packages build, kept structured: the format
    string of the source and its arguments instead of the rendered text. *)
#[warnings="-register-all"]
Inductive error : Type :=
  | ErrOS (msg : string)                 (* an error of the OS or a remote API *)
  | ErrSyntax                            (* strconv.ErrSyntax *)
  | ErrRange                             (* strconv.ErrRange *)
  | InvalidByteError (b : ascii)         (* encoding/hex *)
  | ErrLength                            (* encoding/hex *)
  | Errorf (format arg : string)         (* errors.Errorf(format, arg) *)
  | Wrap (cause : error) (msg : string)  (* errors.Wrap(cause, msg) *)
  | Wrapf (cause : error) (format arg : string)
  | MultiError (errs : list error).      (* *multierror.Error *)

(** [errors.Wrap(err, msg)]: wrapping the nil error gives nil. *)
Definition errors_Wrap (err : option error) (msg : string) : option error :=
  match err with
  | None => None
  | Some e => Some (Wrap e msg)
  end.

(** ** Go standard library *)

Module Go.

(** The numeric value of a byte of text. *)
Definition byteZ (c : ascii) : Z := Z.of_N (N_of_ascii c).

Definition between (lo c hi : ascii) : bool :=
  (byteZ lo <=? byteZ c) && (byteZ c <=? byteZ hi).

(** [lower(c)] of strconv: [c | ('x' - 'X')]. *)
Definition lower (c : ascii) : Z := Z.lor (byteZ c) 32.

(** [len(s)]. *)
Definition len (s : string) : Z := Z.of_nat (String.length s).

(** *** strings.Split and bytes.Split, for a one-byte separator

    Both call sites of the package split on a single byte ([":"] and
    ["\n"]).  The result has one more element than [s] has separators; it
    is never empty. *)
Fixpoint Split (s : string) (sep : ascii) : list string :=
  match s with
  | EmptyString => [EmptyString]
  | String c r =>
      if Ascii.eqb c sep then EmptyString :: Split r sep
      else match Split r sep with
           | h :: t => String c h :: t
           | [] => [String c EmptyString]
           end
  end.

(** *** strings.Join *)
Fixpoint Join (elems : list string) (sep : string) : string :=
  match elems with
  | [] => ""
  | [e] => e
  | e :: rest => e +:+ sep +:+ Join rest sep
  end.

(** *** strings.Fields

    Fields are the maximal runs of bytes that hold no white space, where
    white space is what [unicode.IsSpace] accepts on the UTF-8 decoding of
    the string.  [spaceWidth s] is the width in bytes of the white-space
    rune encoded at the head of [s], and 0 when there is none: the six ASCII
    spaces, U+0085, U+00A0, U+1680, U+2000..U+200A, U+2028, U+2029, U+202F,
    U+205F and U+3000.  Every encoding starts with a lead byte, so scanning
    byte by byte meets the same runes as decoding rune by rune. *)
Definition spaceWidth (s : string) : nat :=
  match s with
  | EmptyString => 0%nat
  | String c r =>
      let b := byteZ c in
      if (b =? 9) || (b =? 10) || (b =? 11) || (b =? 12) || (b =? 13) || (b =? 32)
      then 1%nat
      else match r with
           | EmptyString => 0%nat
           | String c1 r1 =>
               let b1 := byteZ c1 in
               if (b =? 194) && ((b1 =? 133) || (b1 =? 160)) then 2%nat
               else match r1 with
                    | EmptyString => 0%nat
                    | String c2 _ =>
                        let b2 := byteZ c2 in
                        if (b =? 225) && (b1 =? 154) && (b2 =? 128) then 3%nat
                        else if (b =? 226) && (b1 =? 128) &&
                                (((128 <=? b2) && (b2 <=? 138)) ||
                                 (b2 =? 168) || (b2 =? 169) || (b2 =? 175)) then 3%nat
                        else if (b =? 226) && (b1 =? 129) && (b2 =? 159) then 3%nat
                        else if (b =? 227) && (b1 =? 128) && (b2 =? 128) then 3%nat
                        else 0%nat
                    end
           end
  end.

(** A finished field is kept only when it is not empty. *)
Definition pushField (cur : string) (rest : list string) : list string :=
  match cur with
  | EmptyString => rest
  | _ => cur :: rest
  end.

(** [fieldsFrom skip s]: the field that starts at the head of [s] (empty
    when the head is white space) and the fields after it; [skip] counts
    the bytes of a white-space rune still to be passed. *)
Fixpoint fieldsFrom (skip : nat) (s : string) : string * list string :=
  match s with
  | EmptyString => (EmptyString, [])
  | String c r =>
      match skip with
      | S k => let '(cur, rest) := fieldsFrom k r in (EmptyString, pushField cur rest)
      | O =>
          match spaceWidth s with
          | S k => let '(cur, rest) := fieldsFrom k r in (EmptyString, pushField cur rest)
          | O => let '(cur, rest) := fieldsFrom 0 r in (String c cur, rest)
          end
      end
  end.

Definition Fields (s : string) : list string :=
  let '(cur, rest) := fieldsFrom 0 s in pushField cur rest.

(** *** strings.HasPrefix and strings.TrimPrefix *)
Fixpoint HasPrefix (s prefix : string) : bool :=
  match prefix, s with
  | EmptyString, _ => true
  | String p prefix', String c s' => Ascii.eqb c p && HasPrefix s' prefix'
  | String _ _, EmptyString => false
  end.

Fixpoint dropBytes (n : nat) (s : string) : string :=
  match n, s with
  | S k, String _ r => dropBytes k r
  | _, _ => s
  end.

Definition TrimPrefix (s prefix : string) : string :=
  if HasPrefix s prefix then dropBytes (String.length prefix) s else s.

(** *** strconv.Itoa *)
Definition Itoa (n : Z) : string := NilZero.string_of_int (Z.to_int n).

(** *** strconv.ParseInt(s, 0, 64)

    Base 0: the base comes from the prefix of the string ([0x], [0b], [0o],
    [0], none), and an underscore may separate digits.  [parseDigits] is the
    digit loop of [ParseUint], on the unsigned 64-bit accumulator [n]. *)
Definition maxUint64 : Z := 2 ^ 64 - 1.

Definition digitValue (c : ascii) : option Z :=
  if between "0" c "9" then Some (byteZ c - byteZ "0")
  else if (byteZ "a" <=? lower c) && (lower c <=? byteZ "z")
       then Some (lower c - byteZ "a" + 10)
       else None.

Fixpoint parseDigits (base : Z) (s : string) (n : Z) (underscores : bool)
  : Z * bool * option error :=
  match s with
  | EmptyString => (n, underscores, None)
  | String c r =>
      if Ascii.eqb c "_" then parseDigits base r n true
      else match digitValue c with
           | None => (0, underscores, Some ErrSyntax)
           | Some d =>
               if base <=? d then (0, underscores, Some ErrSyntax)
               else if maxUint64 / base + 1 <=? n then (maxUint64, underscores, Some ErrRange)
               else let n' := (n * base) mod 2 ^ 64 in
                    let n1 := (n' + d) mod 2 ^ 64 in
                    if (n1 <? n') || (maxUint64 <? n1)
                    then (maxUint64, underscores, Some ErrRange)
                    else parseDigits base r n1 underscores
           end
  end.

(** [underscoreOK]: underscores only between digits, or between the base
    prefix and a digit.  [saw] is the class of the previous byte: [0] for a
    digit or the prefix, [1] for an underscore, [2] for anything else and
    for the start of the number. *)
Fixpoint underscoreScan (hex : bool) (s : string) (saw : nat) : bool :=
  match s with
  | EmptyString => negb (Nat.eqb saw 1)
  | String c r =>
      if between "0" c "9" ||
         (hex && (byteZ "a" <=? lower c) && (lower c <=? byteZ "f"))
      then underscoreScan hex r 0%nat
      else if Ascii.eqb c "_"
           then (if Nat.eqb saw 0 then underscoreScan hex r 1%nat else false)
           else if Nat.eqb saw 1 then false
                else underscoreScan hex r 2%nat
  end.

Definition stripSign (s : string) : string :=
  match s with
  | String c r => if Ascii.eqb c "-" || Ascii.eqb c "+" then r else s
  | EmptyString => s
  end.

Definition underscoreOK (s : string) : bool :=
  match stripSign s with
  | String c0 (String c1 r) =>
      if Ascii.eqb c0 "0" &&
         ((lower c1 =? byteZ "b") || (lower c1 =? byteZ "o") || (lower c1 =? byteZ "x"))
      then underscoreScan (lower c1 =? byteZ "x") r 0%nat
      else underscoreScan false (stripSign s) 2%nat
  | t => underscoreScan false t 2%nat
  end.

(** [ParseUint(s, 0, 64)]. *)
Definition ParseUint (s : string) : Z * option error :=
  match s with
  | EmptyString => (0, Some ErrSyntax)
  | String c0 r0 =>
      let '(base, digits) :=
        if Ascii.eqb c0 "0" then
          match r0 with
          | String c1 r1 =>
              if (3 <=? len s) && (lower c1 =? byteZ "b") then (2, r1)
              else if (3 <=? len s) && (lower c1 =? byteZ "o") then (8, r1)
              else if (3 <=? len s) && (lower c1 =? byteZ "x") then (16, r1)
              else (8, r0)
          | EmptyString => (8, r0)
          end
        else (10, s) in
      match parseDigits base digits 0 false with
      | (n, _, Some e) => (n, Some e)
      | (n, underscores, None) =>
          if underscores && negb (underscoreOK s) then (0, Some ErrSyntax)
          else (n, None)
      end
  end.

Definition ParseInt (s : string) : Z * option error :=
  match s with
  | EmptyString => (0, Some ErrSyntax)
  | String c0 r0 =>
      let neg := Ascii.eqb c0 "-" in
      let s' := if Ascii.eqb c0 "+" || neg then r0 else s in
      match ParseUint s' with
      | (_, Some ErrSyntax) => (0, Some ErrSyntax)
      | (un, _) =>
          let cutoff := 2 ^ 63 in
          if negb neg && (cutoff <=? un) then (cutoff - 1, Some ErrRange)
          else if neg && (cutoff <? un) then (- cutoff, Some ErrRange)
          else (if neg then - un else un, None)
      end
  end.

(** *** encoding/hex: DecodeString

    Pairs of hexadecimal digits, either case, each giving one byte.  On a
    byte that is no digit the bytes decoded so far come back with
    [InvalidByteError]; a string of odd length gives [ErrLength]. *)
Definition fromHexChar (c : ascii) : option Z :=
  if between "0" c "9" then Some (byteZ c - byteZ "0")
  else if between "a" c "f" then Some (byteZ c - byteZ "a" + 10)
  else if between "A" c "F" then Some (byteZ c - byteZ "A" + 10)
  else None.

Fixpoint DecodeString (s : string) : list Z * option error :=
  match s with
  | EmptyString => ([], None)
  | String p EmptyString =>
      match fromHexChar p with
      | None => ([], Some (InvalidByteError p))
      | Some _ => ([], Some ErrLength)
      end
  | String p (String q r) =>
      match fromHexChar p, fromHexChar q with
      | None, _ => ([], Some (InvalidByteError p))
      | Some _, None => ([], Some (InvalidByteError q))
      | Some a, Some b =>
          let '(rest, err) := DecodeString r in
          (Z.lor (Z.shiftl a 4) b :: rest, err)
      end
  end.

(** *** net.IP.String

    [<nil>] for no byte, dotted decimal for four bytes and for an
    IPv4-mapped address of sixteen, the colon form with the longest run of
    zero groups shortened for other addresses of sixteen bytes, and [?]
    followed by the bytes in hexadecimal for any other length. *)
Definition hexDigit (v : Z) : ascii :=
  if v <? 10 then ascii_of_N (Z.to_N (byteZ "0" + v))
  else ascii_of_N (Z.to_N (byteZ "a" + (v - 10))).

Fixpoint hexString (b : list Z) : string :=
  match b with
  | [] => ""
  | x :: r => String (hexDigit (Z.shiftr x 4)) (String (hexDigit (Z.land x 15)) (hexString r))
  end.

(** [appendHex(dst, i)]: [i] in hexadecimal without leading zeros. *)
Fixpoint appendHexFrom (j : nat) (i : Z) (dst : string) : string :=
  let v := Z.shiftr i (Z.of_nat j * 4) in
  let dst := if 0 <? v then dst +:+ String (hexDigit (Z.land v 15)) "" else dst in
  match j with
  | O => dst
  | S j' => appendHexFrom j' i dst
  end.

Definition appendHex (dst : string) (i : Z) : string :=
  if i =? 0 then dst +:+ "0" else appendHexFrom 7 i dst.

Definition byteAt (p : list Z) (i : Z) : Z := nth (Z.to_nat i) p 0.

Definition IPv4len : Z := 4.
Definition IPv6len : Z := 16.

Definition isZeros (p : list Z) : bool := forallb (Z.eqb 0) p.

(** [ip.To4()]; [[]] stands for the nil result. *)
Definition To4 (ip : list Z) : list Z :=
  if Z.of_nat (length ip) =? IPv4len then ip
  else if (Z.of_nat (length ip) =? IPv6len) && isZeros (take 10 ip) &&
          (byteAt ip 10 =? 255) && (byteAt ip 11 =? 255)
       then drop 12 ip
       else [].

(** The inner loop of the search: from [j], pass the zero groups. *)
Fixpoint zeroRunEnd (fuel : nat) (p : list Z) (j : Z) : Z :=
  match fuel with
  | O => j
  | S fuel' =>
      if (j <? IPv6len) && (byteAt p j =? 0) && (byteAt p (j + 1) =? 0)
      then zeroRunEnd fuel' p (j + 2)
      else j
  end.

(** The outer loop: [(e0, e1)] bounds the longest run of zeros met so far. *)
Fixpoint longestZeroRun (fuel : nat) (p : list Z) (i e0 e1 : Z) : Z * Z :=
  match fuel with
  | O => (e0, e1)
  | S fuel' =>
      if i <? IPv6len then
        let j := zeroRunEnd 8 p i in
        if (i <? j) && (e1 - e0 <? j - i)
        then longestZeroRun fuel' p (j + 2) i j
        else longestZeroRun fuel' p (i + 2) e0 e1
      else (e0, e1)
  end.

Definition group (p : list Z) (i : Z) : Z :=
  Z.lor (Z.shiftl (byteAt p i) 8) (byteAt p (i + 1)).

(** The printing loop, with [::] in place of the run of zeros. *)
Fixpoint printGroups (fuel : nat) (p : list Z) (i e0 e1 : Z) (b : string) : string :=
  match fuel with
  | O => b
  | S fuel' =>
      if i <? IPv6len then
        if i =? e0 then
          let b := b +:+ "::" in
          if IPv6len <=? e1 then b
          else printGroups fuel' p (e1 + 2) e0 e1 (appendHex b (group p e1))
        else
          let b := if 0 <? i then b +:+ ":" else b in
          printGroups fuel' p (i + 2) e0 e1 (appendHex b (group p i))
      else b
  end.

Definition IP_String (ip : list Z) : string :=
  if Z.of_nat (length ip) =? 0 then "<nil>"
  else
    let p4 := To4 ip in
    if Z.of_nat (length p4) =? IPv4len then
      Itoa (byteAt p4 0) +:+ "." +:+ Itoa (byteAt p4 1) +:+ "." +:+
      Itoa (byteAt p4 2) +:+ "." +:+ Itoa (byteAt p4 3)
    else if negb (Z.of_nat (length ip) =? IPv6len) then "?" +:+ hexString ip
    else
      let '(e0, e1) := longestZeroRun 8 ip 0 (-1) (-1) in
      let '(e0, e1) := if e1 - e0 <=? 2 then (-1, -1) else (e0, e1) in
      printGroups 8 ip 0 e0 e1 "".

(** *** path/filepath: Join and Clean (Unix)

    [Clean] works on the elements between slashes: empty elements and [.]
    go, [..] removes the element before it when there is one to remove,
    and stays at the head of a path that is not rooted. *)
Definition cleanStep (rooted : bool) (out : list string) (e : string) : list string :=
  if String.eqb e "" || String.eqb e "." then out
  else if String.eqb e ".." then
    match out with
    | top :: rest =>
        if String.eqb top ".." then (if rooted then out else e :: out) else rest
    | [] => if rooted then [] else [e]
    end
  else e :: out.

Definition Clean (path : string) : string :=
  match path with
  | EmptyString => "."
  | String c _ =>
      let rooted := Ascii.eqb c "/" in
      let out := rev (fold_left (cleanStep rooted) (Split path "/") []) in
      let body := Join out "/" in
      if rooted then "/" +:+ body
      else if String.eqb body "" then "." else body
  end.

Fixpoint filepath_Join (elem : list string) : string :=
  match elem with
  | [] => ""
  | e :: rest => if String.eqb e "" then filepath_Join rest else Clean (Join elem "/")
  end.

End Go.

(** ** Package monitor: the data model *)

(** [Connection] represents a connection, or a listening socket.  The Go
    field [Type] is [Type_] here; [RemoteAddess] is spelled as in the
    source. *)
Record Connection : Type := {
  Family : string;
  Type_ : string;
  LocalAddress : string;
  RemoteAddess : string;
  Status : string
}.

(** ** Package connection *)

Record netConnectionKindType : Type := {
  family : string;
  sockType : string;
  filename : string
}.

(** The IPv6 kinds are commented out in the source. *)
Definition connectionKindTypes : list netConnectionKindType :=
  [ {| family := "inet"; sockType := "tcp"; filename := "tcp" |};
    {| family := "inet"; sockType := "udp"; filename := "udp" |} ].

Definition _TCPStatuses : gmap string string :=
  list_to_map
    [ ("01", "ESTABLISHED"); ("02", "SYN_SENT"); ("03", "SYN_RECV");
      ("04", "FIN_WAIT1"); ("05", "FIN_WAIT2"); ("06", "TIME_WAIT");
      ("07", "CLOSE"); ("08", "CLOSE_WAIT"); ("09", "LAST_ACK");
      ("0A", "LISTEN"); ("0B", "CLOSING") ].

(** [s[i], s[j] = s[j], s[i]]; the loop of [reverse] keeps both indices in
    range, where Go would panic otherwise. *)
Definition swap (s : list Z) (i j : nat) : list Z :=
  match s !! i, s !! j with
  | Some a, Some b => <[j := a]> (<[i := b]> s)
  | _, _ => s
  end.

(** The loop of [reverse]: [for i, j := 0, len(s)-1; i < j; i, j = i+1, j-1]. *)
Fixpoint reverseLoop (fuel : nat) (s : list Z) (i j : Z) : list Z :=
  match fuel with
  | O => s
  | S fuel' =>
      if i <? j
      then reverseLoop fuel' (swap s (Z.to_nat i) (Z.to_nat j)) (i + 1) (j - 1)
      else s
  end.

Definition reverse (s : list Z) : list Z :=
  reverseLoop (length s) s 0 (Z.of_nat (length s) - 1).

(** [decodeAddress(family, src)].  The final [return] of the source gives
    the formatted string; the error beside it is nil. *)
Definition decodeAddress (family src : string) : string * option error :=
  let t := Go.Split src ":" in
  if negb (length t =? 2)%nat then
    ("", Some (Errorf "does not contain port %q" src))
  else
    let addr := nth 0 t "" in
    let '(port, err) := Go.ParseInt ("0x" +:+ nth 1 t "") in
    match err with
    | Some _ => ("", Some (Errorf "invalid port %q" src))
    | None =>
        let '(decoded, err) := Go.DecodeString addr in
        match err with
        | Some e => ("", Some (Wrapf e "decode error %q" addr))
        | None =>
            (* var ip net.IP: nil unless the family is inet *)
            let ip := if String.eqb family "inet" then reverse decoded else [] in
            (Go.IP_String ip +:+ ":" +:+ Go.Itoa port, None)
        end
    end.

(** The status of a row: lines 81 to 88 of [processINET].  A key absent
    from a Go map reads as the empty string. *)
Definition rowStatus (kind : netConnectionKindType) (code : string) : string :=
  let status := "" in
  let status :=
    if String.eqb (sockType kind) "tcp" then default "" (_TCPStatuses !! code)
    else status in
  if String.eqb status "" then "NONE" else status.

(** The body of the loop of [processINET] on one line: [out] after the
    line.  The source calls [decodeAddress] with the field alone; the
    family it needs is the one of [kind], and [c.Type] is the socket type
    of [kind], the only field of the kind that names the transport. *)
Definition processLine (kind : netConnectionKindType) (out : list Connection)
    (line : string) : list Connection :=
  let l := Go.Fields line in
  if (length l <? 10)%nat then out
  else
    let '(localAddress, err) := decodeAddress (family kind) (nth 1 l "") in
    match err with
    | Some _ => out
    | None =>
        let '(remoteAddess, err) := decodeAddress (family kind) (nth 2 l "") in
        match err with
        | Some _ => out
        | None =>
            out ++ [ {| Family := family kind;
                        Type_ := sockType kind;
                        LocalAddress := localAddress;
                        RemoteAddess := remoteAddess;
                        Status := rowStatus kind (nth 3 l "") |} ]
        end
    end.

Definition newline : ascii := "010"%char.

(** The file system, as [ioutil.ReadFile] shows it: the content of a path,
    or an error. *)
Definition FileSystem : Type := string -> string * option error.

Definition processINET (ReadFile : FileSystem) (filename : string)
    (kind : netConnectionKindType) : list Connection * option error :=
  let '(contents, err) := ReadFile filename in
  match err with
  | Some e => ([], Some (Wrapf e "failed to read file %q" filename))
  | None =>
      let lines := Go.Split contents newline in
      (* skip first line *)
      (fold_left (processLine kind) (drop 1 lines) [], None)
  end.

(** Modelled from the spec: [multierror.Append(result, err)] of
    hashicorp/go-multierror, which is not under src/, on the errors gathered
    so far: the errors of an aggregate are taken one by one, any other error
    as it is. *)
Definition multierror_Append (result : list error) (err : error) : list error :=
  match err with
  | MultiError errs => result ++ errs
  | _ => result ++ [err]
  end.

(** Modelled from the spec: [result.NilOrError()] of the aggregate, which
    is not under src/: an aggregate with no error is nil, any other is the
    aggregate itself. *)
Definition NilOrError (result : list error) : option error :=
  match result with
  | [] => None
  | _ => Some (MultiError result)
  end.

(** One turn of the loop of [GetConnections], on the pair [(out, result)]. *)
Definition getConnectionsStep (ReadFile : FileSystem) (root : string) (pid : Z)
    (st : list Connection * list error) (k : netConnectionKindType)
  : list Connection * list error :=
  let '(out, result) := st in
  let filename := Go.filepath_Join [root; Go.Itoa pid; filename k] in
  let '(connections, err) := processINET ReadFile filename k in
  match err with
  | Some e => (out, multierror_Append result e)
  | None => (fold_left (fun out c => out ++ [c]) connections out, result)
  end.

Definition GetConnections (ReadFile : FileSystem) (root : string) (pid : Z)
  : list Connection * option error :=
  let root := if String.eqb root "" then "/proc" else root in
  let '(out, result) :=
    fold_left (getConnectionsStep ReadFile root pid) connectionKindTypes ([], []) in
  (out, NilOrError result).

(** ** Package moby *)

Record ContainerState : Type := { Pid : Z }.
Record ContainerJSON : Type := { State : option ContainerState }.

Definition mobyPrefix : string := "docker://".

(** [GetPids]; [ContainerInspect] is the answer of the container runtime.
    The deadline of the request is not modelled. *)
Definition GetPids (ContainerInspect : string -> ContainerJSON * option error)
    (id : string) : list Z * option error :=
  if negb (Go.HasPrefix id mobyPrefix) then
    ([], Some (Errorf "%q is not a moby containerID" id))
  else
    let id := Go.TrimPrefix id mobyPrefix in
    let '(info, err) := ContainerInspect id in
    match err with
    | Some e => ([], Some (Wrap e "ContainerInspect failed"))
    | None =>
        match State info with
        | None => ([], errors_Wrap err "container has no state")
        | Some state =>
            let pid := Pid state in
            if 0 <=? pid then ([], None) else ([pid], None)
        end
    end.

(** ** Package monitor: the connections of one pod, in [Monitor.Collect] *)

(** The key of a connection; the status is left out. *)
Definition connectionKey (i : Connection) : string :=
  Go.Join [Family i; Type_ i; LocalAddress i; RemoteAddess i] "|".

(** The loop over one pid: the error of [GetConnections] is logged and the
    connections returned beside it are still recorded. *)
Definition collectPid (GetConnections : Z -> list Connection * option error)
    (connections : gmap string Connection) (pid : Z) : gmap string Connection :=
  let '(c, _) := GetConnections pid in
  fold_left (fun connections i => <[connectionKey i := i]> connections) c connections.

(** [for pid := range pids]: Go visits the keys of a map once each, in an
    order it does not fix; [order] is the order of one run. *)
Definition collectConnections (GetConnections : Z -> list Connection * option error)
    (order : list Z) : gmap string Connection :=
  fold_left (collectPid GetConnections) order ∅.

(** [conns]: the values of the map, in the order Go ranges over it. *)
Definition connectionValues (connections : gmap string Connection) : list Connection :=
  (map_to_list connections).*2.

(** ** Reference notions used in the statements *)

(** The number of occurrences of a byte in a text. *)
Fixpoint countByte (b : ascii) (s : string) : nat :=
  match s with
  | EmptyString => O
  | String c r => if Ascii.eqb c b then S (countByte b r) else countByte b r
  end.

(** The number of [":"] in a field. *)
Definition colons (s : string) : nat := countByte ":" s.

Definition isHexDigit (c : ascii) : bool :=
  Go.between "0" c "9" || Go.between "a" c "f" || Go.between "A" c "F".

Fixpoint allHex (s : string) : bool :=
  match s with
  | EmptyString => true
  | String c r => isHexDigit c && allHex r
  end.

Definition hexDigitValue (c : ascii) : Z := default 0 (Go.fromHexChar c).

(** The number a string of hexadecimal digits writes in base 16. *)
Fixpoint hexValueFrom (acc : Z) (s : string) : Z :=
  match s with
  | EmptyString => acc
  | String c r => hexValueFrom (acc * 16 + hexDigitValue c) r
  end.

Definition hexValue (s : string) : Z := hexValueFrom 0 s.

(** The bytes a string of hexadecimal digits writes, two digits a byte. *)
Fixpoint hexBytes (s : string) : list Z :=
  match s with
  | String p (String q r) => 16 * hexDigitValue p + hexDigitValue q :: hexBytes r
  | _ => []
  end.

(** Bytes in dotted decimal. *)
Definition dotted (bytes : list Z) : string := Go.Join (Go.Itoa <$> bytes) ".".

(** The table of TCP states of the specification, and its codes. *)
Definition tcpStateTable : list (string * string) :=
  [ ("01", "ESTABLISHED"); ("02", "SYN_SENT"); ("03", "SYN_RECV");
    ("04", "FIN_WAIT1"); ("05", "FIN_WAIT2"); ("06", "TIME_WAIT");
    ("07", "CLOSE"); ("08", "CLOSE_WAIT"); ("09", "LAST_ACK");
    ("0A", "LISTEN"); ("0B", "CLOSING") ].

Definition tcpCodes : list string := tcpStateTable.*1.

(** A line of a table with the ten fields a row needs. *)
Definition wellFormedRow (line : string) : Prop :=
  (10 <= length (Go.Fields line))%nat.

(** What the parser of one kind returned, for each kind of a list. *)
Definition kindResults (ReadFile : FileSystem) (root : string) (pid : Z)
    (kinds : list netConnectionKindType) : list (list Connection * option error) :=
  (fun k => processINET ReadFile (Go.filepath_Join [root; Go.Itoa pid; filename k]) k)
    <$> kinds.

(** The connections of a result that has no error. *)
Definition parsed (r : list Connection * option error) : list Connection :=
  match r.2 with
  | None => r.1
  | Some _ => []
  end.

#[global] Instance wellFormedRow_dec (line : string) : Decision (wellFormedRow line).
Proof. unfold wellFormedRow. apply _. Defined.

(** Two connections agree on the four fields of the key. *)
Definition sameEndpoints (a b : Connection) : Prop :=
  Family a = Family b /\ Type_ a = Type_ b /\
  LocalAddress a = LocalAddress b /\ RemoteAddess a = RemoteAddess b.


(** One assignment [connections[key] = i] of the loop of [collectPid]. *)
Definition record (connections : gmap string Connection) (i : Connection)
  : gmap string Connection :=
  <[connectionKey i := i]> connections.

(** Every connection of the map stands under its own key. *)
Definition keyed (connections : gmap string Connection) : Prop :=
  forall k c, connections !! k = Some c -> connectionKey c = k.

(** The connections a run over [order] records, in the order it records
    them. *)
Definition recorded (GetConnections : Z -> list Connection * option error)
    (order : list Z) : list Connection :=
  flat_map (fun pid => (GetConnections pid).1) order.

#[global] Instance sameEndpoints_dec (a b : Connection) : Decision (sameEndpoints a b).
Proof. unfold sameEndpoints. apply _. Defined.

(** ** Examples used to instantiate the statements *)

Definition exampleHeader : string :=
  "  sl  local_address rem_address   st tx_queue rx_queue tr tm->when retrnsmt   uid  timeout inode".

Definition exampleRow : string :=
  "   0: 0100007F:1F90 00000000:0000 0A 00000000:00000000 00:00000000 00000000     0        0 12345 1 0000000000000000 100 0 0 10 0".

Definition exampleTable : string :=
  exampleHeader +:+ String newline (exampleRow +:+ String newline ("   1: 0100007F:0016 00000000:0000" +:+ String newline "")).

(** A process 7 with a TCP table and no UDP table. *)
Definition exampleFS : FileSystem :=
  fun path =>
    if String.eqb path "/proc/7/tcp" then (exampleTable, None)
    else if String.eqb path "/proc/8/tcp" then (exampleHeader, None)
    else ("", Some (ErrOS "no such file or directory")).

Definition tcpKind : netConnectionKindType :=
  {| family := "inet"; sockType := "tcp"; filename := "tcp" |}.

Definition exampleListen : Connection :=
  {| Family := "inet"; Type_ := "tcp"; LocalAddress := "127.0.0.1:8080";
     RemoteAddess := "0.0.0.0:0"; Status := "LISTEN" |}.

Definition exampleEstablished : Connection :=
  {| Family := "inet"; Type_ := "tcp"; LocalAddress := "10.0.0.5:443";
     RemoteAddess := "10.0.0.9:51000"; Status := "ESTABLISHED" |}.

Definition exampleCloseWait : Connection :=
  {| Family := "inet"; Type_ := "tcp"; LocalAddress := "10.0.0.5:443";
     RemoteAddess := "10.0.0.9:51000"; Status := "CLOSE_WAIT" |}.

(** Two processes of one pod that see the same socket in two states. *)
Definition exampleGetter (pid : Z) : list Connection * option error :=
  if pid =? 11 then ([exampleListen; exampleEstablished], None)
  else if pid =? 12 then ([exampleCloseWait], None)
  else ([], Some (ErrOS "no such process")).

(** A container runtime that knows one container, of process [pid]. *)
Definition exampleInspect (pid : Z) (id : string) : ContainerJSON * option error :=
  if String.eqb id "abc" then ({| State := Some {| Pid := pid |} |}, None)
  else ({| State := None |}, Some (ErrOS "no such container")).

(** ** Further notions used in the statements *)

(** A row whose two address fields decode for the family of the kind. *)
Definition decodableRow (kind : netConnectionKindType) (line : string) : Prop :=
  (decodeAddress (family kind) (nth 1 (Go.Fields line) "")).2 = None /\
  (decodeAddress (family kind) (nth 2 (Go.Fields line) "")).2 = None.

#[global] Instance decodableRow_dec (kind : netConnectionKindType) (line : string) :
  Decision (decodableRow kind line).
Proof. unfold decodableRow. apply _. Defined.

(** A file system with three tables: one, another, and the rows of both
    under one header. *)
Definition exampleRow2 : string :=
  "   1: 0500000A:01BB 0900000A:C738 01 00000000:00000000 00:00000000 00000000     0        0 12346 1 0000000000000000 100 0 0 10 0".

Definition exampleBadRow : string :=
  "   2: 0500000A:01BB 0900000A 01 00000000:00000000 00:00000000 00000000     0        0 12347 1 0000000000000000 100 0 0 10 0".

Definition exampleFS2 : FileSystem :=
  fun path =>
    if String.eqb path "a" then (exampleHeader +:+ String newline exampleRow, None)
    else if String.eqb path "b"
      then ("header" +:+ String newline (exampleBadRow +:+ String newline exampleRow2), None)
    else if String.eqb path "ab"
      then ("" +:+ String newline
              (exampleRow +:+ String newline
                 (exampleBadRow +:+ String newline exampleRow2)), None)
    else ("", Some (ErrOS "no such file or directory")).


(** The table of a kind for a process, under a root. *)
Definition tablePath (root : string) (pid : Z) (k : netConnectionKindType) : string :=
  Go.filepath_Join [root; Go.Itoa pid; filename k].

(** The error [processINET] returns for a table that cannot be read. *)
Definition readFailure (ReadFile : FileSystem) (path : string) : option error :=
  match (ReadFile path).2 with
  | None => None
  | Some cause => Some (Wrapf cause "failed to read file %q" path)
  end.

Definition udpKind : netConnectionKindType :=
  {| family := "inet"; sockType := "udp"; filename := "udp" |}.

(** A file system that agrees with [exampleFS] on the two tables of process 7
    and on no other path. *)
Definition exampleFS3 : FileSystem :=
  fun path =>
    if String.eqb path "/proc/7/tcp" then (exampleTable, None)
    else if String.eqb path "/proc/7/udp"
      then ("", Some (ErrOS "no such file or directory"))
    else (exampleRow, None).


(** ** Package monitor: pods, containers and [Monitor.Collect] *)

(** Modelled from the spec: the part of [metav1.ObjectMeta] and of [v1.Pod]
    (k8s.io/apimachinery and k8s.io/api, not under src/) that the monitor
    reads: the name and namespace of a pod, its phase, and for each of its
    containers the name, the id and whether the state [Running] is set. *)
Module metav1.
Record ObjectMeta : Type := { Name : string; Namespace : string }.
End metav1.

Module v1.
Definition PodPhase : Type := string.
Definition PodPending : PodPhase := "Pending".
Definition PodRunning : PodPhase := "Running".
Definition PodSucceeded : PodPhase := "Succeeded".
Definition PodFailed : PodPhase := "Failed".
Definition PodUnknown : PodPhase := "Unknown".
Record ContainerStateRunning : Type := { StartedAt : string }.
Record ContainerState : Type := { Running : option ContainerStateRunning }.
Record ContainerStatus : Type := {
  Name : string;
  State : ContainerState;
  ContainerID : string
}.
Record PodStatus : Type := {
  Phase : PodPhase;
  ContainerStatuses : list ContainerStatus
}.
Record Pod : Type := { ObjectMeta : metav1.ObjectMeta; Status : PodStatus }.
End v1.

(** [Pod] is a simplified pod for reporting. *)
Record Pod : Type := { Name : string; Namespace : string }.

#[global] Instance Pod_eq_dec : EqDecision Pod.
Proof. solve_decision. Defined.

#[global] Instance Pod_countable : Countable Pod.
Proof.
  refine (inj_countable' (fun p => (Name p, Namespace p))
            (fun x => {| Name := x.1; Namespace := x.2 |}) _).
  by intros [].
Defined.

(** A field of a log entry ([zap.String], [zap.Int]) and an entry: the
    message and its fields. *)
Inductive Field : Type :=
  | zap_String (key val : string)
  | zap_Int (key : string) (val : Z).

Definition LogEntry : Type := string * list Field.

(** A [zap.Logger], as far as the monitor can tell one from another: where
    it came from, and the fields [With] has attached to it. *)
Record Logger : Type := { origin : string; context : list Field }.

(** [logger.With(fields...)]. *)
Definition With (l : Logger) (fields : list Field) : Logger :=
  {| origin := origin l; context := context l ++ fields |}.

(** [Monitor]: the three interfaces, as the functions they hold, the logger
    (nil until [New] sets it) and the node name. *)
Record Monitor : Type := {
  podLister : string -> list v1.Pod * option error;
  pidGetter : string -> list Z * option error;
  connectionGetter : Z -> list Connection * option error;
  logger : option Logger;
  nodeName : string
}.

(** [m.logger.Warn(msg, fields...)]: the calls made, in order.  [Collect] is
    modelled for a monitor whose logger is set, as every monitor that [New]
    returns is. *)
Definition Warn (log : list LogEntry) (msg : string) (fields : list Field)
  : list LogEntry :=
  log ++ [(msg, fields)].

Definition isContainerRunning (c : v1.ContainerStatus) : bool :=
  match v1.Running (v1.State c) with
  | Some _ => true
  | None => false
  end.

Definition runningContainerIDs (in_ : v1.PodStatus) : gmap string string :=
  fold_left
    (fun out c =>
       if isContainerRunning c then
         if negb (String.eqb (v1.ContainerID c) "")
         then <[v1.Name c := v1.ContainerID c]> out
         else out
       else out)
    (v1.ContainerStatuses in_) ∅.

Definition runningPods (in_ : list v1.Pod) : list v1.Pod :=
  fold_left
    (fun out p =>
       if String.eqb (v1.Phase (v1.Status p)) v1.PodRunning ||
          String.eqb (v1.Phase (v1.Status p)) v1.PodPending
       then out ++ [p]
       else out)
    in_ [].

(** The order in which Go ranges over the three maps of [Collect], which
    the language does not fix: for the pod at position [n] of the loop, the
    order of the container ids, of the process ids and of the connections. *)
Record Schedule : Type := {
  rangeIDs : nat -> gmap string string -> list (string * string);
  rangePids : nat -> gmap Z bool -> list Z;
  rangeConnections : nat -> gmap string Connection -> list Connection
}.

(** A schedule visits every entry of a map once. *)
Definition fair (sched : Schedule) : Prop :=
  forall n,
    (forall ids, rangeIDs sched n ids ≡ₚ map_to_list ids) /\
    (forall pids, rangePids sched n pids ≡ₚ (map_to_list pids).*1) /\
    (forall connections,
        rangeConnections sched n connections ≡ₚ connectionValues connections).

(** One turn of the loop over the container ids of a pod (lines 137 to
    152): a failure of [GetPids] is logged and the container passed over. *)
Definition collectContainer (m : Monitor) (p : v1.Pod)
    (st : gmap Z bool * list LogEntry) (entry : string * string)
  : gmap Z bool * list LogEntry :=
  let '(pids, log) := st in
  let '(name, id) := entry in
  let '(containerPids, err) := pidGetter m id in
  match err with
  | Some _ =>
      (pids,
       Warn log "failed to get pids"
         [ zap_String "name" (metav1.Name (v1.ObjectMeta p));
           zap_String "namespace" (metav1.Namespace (v1.ObjectMeta p));
           zap_String "container" name;
           zap_String "containerID" id ])
  | None => (fold_left (fun pids pid => <[pid := true]> pids) containerPids pids, log)
  end.

(** One turn of the loop over the process ids of a pod (lines 156 to 175),
    with the entry it logs: a failure of [GetConnections] is logged and the
    connections returned beside it are recorded all the same. *)
Definition collectPidLogged (m : Monitor) (p : v1.Pod)
    (st : gmap string Connection * list LogEntry) (pid : Z)
  : gmap string Connection * list LogEntry :=
  let '(connections, log) := st in
  let '(c, err) := connectionGetter m pid in
  let log :=
    match err with
    | Some _ =>
        Warn log "failed to get pids"
          [ zap_String "name" (metav1.Name (v1.ObjectMeta p));
            zap_String "namespace" (metav1.Namespace (v1.ObjectMeta p));
            zap_Int "pid" pid ]
    | None => log
    end in
  (fold_left (fun connections i => <[connectionKey i := i]> connections) c connections,
   log).

(** The body of the loop over the pods, for the pod at position [n]. *)
Definition collectPod (m : Monitor) (sched : Schedule) (n : nat) (p : v1.Pod)
    (st : gmap Pod (list Connection) * list LogEntry)
  : gmap Pod (list Connection) * list LogEntry :=
  let '(out, log) := st in
  let ids := runningContainerIDs (v1.Status p) in
  let '(pids, log) := fold_left (collectContainer m p) (rangeIDs sched n ids) (∅, log) in
  let '(connections, log) :=
    fold_left (collectPidLogged m p) (rangePids sched n pids) (∅, log) in
  let pod := {| Name := metav1.Name (v1.ObjectMeta p);
                Namespace := metav1.Namespace (v1.ObjectMeta p) |} in
  let conns :=
    fold_left (fun conns c => conns ++ [c]) (rangeConnections sched n connections) [] in
  (<[pod := conns]> out, log).

Fixpoint collectPods (m : Monitor) (sched : Schedule) (n : nat) (pods : list v1.Pod)
    (st : gmap Pod (list Connection) * list LogEntry)
  : gmap Pod (list Connection) * list LogEntry :=
  match pods with
  | [] => st
  | p :: rest => collectPods m sched (S n) rest (collectPod m sched n p st)
  end.

(** [Collect]: the connections of each pod, the error, and the entries
    logged.  The nil map returned with an error is the empty map. *)
Definition Collect (m : Monitor) (sched : Schedule)
  : gmap Pod (list Connection) * option error * list LogEntry :=
  let '(pods, err) := podLister m (nodeName m) in
  match err with
  | Some e =>
      (∅, Some (Wrapf e "failed to get pods for node %q" (nodeName m)), [])
  | None =>
      let pods := runningPods pods in
      let '(out, log) := collectPods m sched 0 pods (∅, []) in
      (out, None, log)
  end.

(** The identity under which a pod is reported. *)
Definition podOf (p : v1.Pod) : Pod :=
  {| Name := metav1.Name (v1.ObjectMeta p);
     Namespace := metav1.Namespace (v1.ObjectMeta p) |}.

(** A pod whose phase is Running or Pending. *)
Definition eligible (p : v1.Pod) : Prop :=
  v1.Phase (v1.Status p) = v1.PodRunning \/ v1.Phase (v1.Status p) = v1.PodPending.

#[global] Instance eligible_dec (p : v1.Pod) : Decision (eligible p).
Proof. unfold eligible. apply _. Defined.

(** A container that runs and has an id. *)
Definition reportsID (c : v1.ContainerStatus) : Prop :=
  v1.Running (v1.State c) <> None /\ v1.ContainerID c <> "".

(** One turn of the loop of [runningContainerIDs]. *)
Definition noteContainer (out : gmap string string) (c : v1.ContainerStatus)
  : gmap string string :=
  if isContainerRunning c then
    if negb (String.eqb (v1.ContainerID c) "")
    then <[v1.Name c := v1.ContainerID c]> out
    else out
  else out.

(** The schedule that follows the order of [map_to_list]. *)
Definition canonicalSchedule : Schedule :=
  {| rangeIDs := fun _ ids => map_to_list ids;
     rangePids := fun _ pids => (map_to_list pids).*1;
     rangeConnections := fun _ connections => connectionValues connections |}.


(** ** Package monitor: [New] and [getFQDN] *)

Module GoNet.

(** [strings.HasSuffix] and [strings.TrimSuffix]. *)
Definition HasSuffix (s suffix : string) : bool :=
  (String.length suffix <=? String.length s)%nat &&
  String.eqb (Go.dropBytes (String.length s - String.length suffix) s) suffix.

Fixpoint takeBytes (n : nat) (s : string) : string :=
  match n, s with
  | S k, String c r => String c (takeBytes k r)
  | _, _ => EmptyString
  end.

Definition TrimSuffix (s suffix : string) : string :=
  if HasSuffix s suffix
  then takeBytes (String.length s - String.length suffix) s
  else s.

(** [net.IP.MarshalText]: the empty text for no byte, an error for a length
    that is neither 4 nor 16, and the text of [String] otherwise. *)
Definition MarshalText (ip : list Z) : string * option error :=
  if Z.of_nat (length ip) =? 0 then ("", None)
  else if negb (Z.of_nat (length ip) =? Go.IPv4len) &&
          negb (Z.of_nat (length ip) =? Go.IPv6len)
       then ("", Some (ErrOS "invalid IP address"))
       else (Go.IP_String ip, None).

End GoNet.

(** What [New] and [getFQDN] ask of the host: [os.Hostname],
    [net.LookupIP], [net.LookupAddr] and [zap.NewProduction]. *)
Record Host : Type := {
  os_Hostname : string * option error;
  net_LookupIP : string -> list (list Z) * option error;
  net_LookupAddr : string -> list string * option error;
  zap_NewProduction : Logger * option error
}.

(** The loop of [getFQDN] over the addresses of the host name: the first
    address that has an IPv4 form decides. *)
Fixpoint getFQDN_addrs (h : Host) (hostname : string) (addrs : list (list Z))
  : string * option error :=
  match addrs with
  | [] => (hostname, None)
  | addr :: rest =>
      let ipv4 := Go.To4 addr in
      match ipv4 with
      | [] => getFQDN_addrs h hostname rest
      | _ =>
          let '(ip, err) := GoNet.MarshalText ipv4 in
          match err with
          | Some _ => (hostname, None)
          | None =>
              let '(hosts, err) := net_LookupAddr h ip in
              match err, hosts with
              | None, fqdn :: _ => (GoNet.TrimSuffix fqdn ".", None)
              | _, _ => (hostname, None)
              end
          end
      end
  end.

Definition getFQDN (h : Host) : string * option error :=
  let '(hostname, err) := os_Hostname h in
  match err with
  | Some e => ("", Some (Wrap e "failed to get hostname"))
  | None =>
      let '(addrs, err) := net_LookupIP h hostname in
      match err with
      | Some _ => (hostname, None)
      | None => getFQDN_addrs h hostname addrs
      end
  end.

(** [Option]: a function that changes the monitor and may fail.  The logger
    given to [WithLogger] is a pointer, and may be nil. *)
Definition Option : Type := Monitor -> Monitor * option error.

Definition WithLogger (l : option Logger) : Option :=
  fun m =>
    ({| podLister := podLister m; pidGetter := pidGetter m;
        connectionGetter := connectionGetter m;
        logger := l; nodeName := nodeName m |}, None).

Definition WithNodeName (name : string) : Option :=
  fun m =>
    ({| podLister := podLister m; pidGetter := pidGetter m;
        connectionGetter := connectionGetter m;
        logger := logger m; nodeName := name |}, None).

(** The loop of [New] over the options: the monitor after them, or the
    error of the first that fails. *)
Fixpoint applyOptions (options : list Option) (m : Monitor) : Monitor * option error :=
  match options with
  | [] => (m, None)
  | f :: rest =>
      let '(m', err) := f m in
      match err with
      | Some e => (m', Some (Wrap e "options failed"))
      | None => applyOptions rest m'
      end
  end.

(** [New]: [None] stands for the nil monitor returned with an error. *)
Definition New (h : Host)
    (pl : string -> list v1.Pod * option error)
    (pg : string -> list Z * option error)
    (cg : Z -> list Connection * option error)
    (options : list Option) : option Monitor * option error :=
  let m := {| podLister := pl; pidGetter := pg; connectionGetter := cg;
              logger := None; nodeName := "" |} in
  let '(m, err) := applyOptions options m in
  match err with
  | Some e => (None, Some e)
  | None =>
      let '(lg, err) :=
        match logger m with
        | Some l => (l, None)
        | None =>
            let '(l, err) := zap_NewProduction h in
            (l, errors_Wrap err "failed to create default logger")
        end in
      match err with
      | Some e => (None, Some e)
      | None =>
          let '(name, err) :=
            if String.eqb (nodeName m) "" then
              let '(hostname, err) := getFQDN h in
              (hostname, errors_Wrap err "failed to get FQDN hostname")
            else (nodeName m, None) in
          match err with
          | Some e => (None, Some e)
          | None =>
              (Some {| podLister := podLister m; pidGetter := pidGetter m;
                       connectionGetter := connectionGetter m;
                       logger := Some (With lg [zap_String "nodeName" name]);
                       nodeName := name |}, None)
          end
      end
  end.


(** The process ids of a pod after the loop over its container ids. *)
Definition podPids (m : Monitor) (p : v1.Pod) (order : list (string * string))
    (log : list LogEntry) : gmap Z bool :=
  (fold_left (collectContainer m p) order (∅, log)).1.

(** A monitor that knows two containers of the processes of
    [exampleGetter], and a third it cannot resolve. *)
Definition examplePidGetter (id : string) : list Z * option error :=
  if String.eqb id "docker://one" then ([11], None)
  else if String.eqb id "docker://two" then ([12; 11], None)
  else ([99], Some (ErrOS "no such container")).

Definition exampleContainer (name id : string) (running : bool) : v1.ContainerStatus :=
  {| v1.Name := name;
     v1.State := {| v1.Running := if running then Some {| v1.StartedAt := "now" |}
                                   else None |};
     v1.ContainerID := id |}.

Definition examplePod (name phase : string) (cs : list v1.ContainerStatus) : v1.Pod :=
  {| v1.ObjectMeta := {| metav1.Name := name; metav1.Namespace := "default" |};
     v1.Status := {| v1.Phase := phase; v1.ContainerStatuses := cs |} |}.

Definition examplePods : list v1.Pod :=
  [ examplePod "web" "Running"
      [ exampleContainer "app" "docker://one" true;
        exampleContainer "sidecar" "docker://two" true;
        exampleContainer "broken" "docker://three" true;
        exampleContainer "init" "docker://zero" false ];
    examplePod "done" "Succeeded" [ exampleContainer "job" "docker://one" true ];
    examplePod "idle" "Pending" [ exampleContainer "wait" "" true ] ].

Definition exampleMonitor : Monitor :=
  {| podLister := fun node =>
       if String.eqb node "node-1" then (examplePods, None)
       else ([], Some (ErrOS "node not found"));
     pidGetter := examplePidGetter;
     connectionGetter := exampleGetter;
     logger := Some {| origin := "test"; context := [zap_String "nodeName" "node-1"] |};
     nodeName := "node-1" |}.


(** The connections reported for the pod at position [n] of the loop. *)
Definition podConnections (m : Monitor) (sched : Schedule) (n : nat) (p : v1.Pod)
  : list Connection :=
  let ids := runningContainerIDs (v1.Status p) in
  let pids := podPids m p (rangeIDs sched n ids) [] in
  rangeConnections sched n
    (collectConnections (connectionGetter m) (rangePids sched n pids)).


(** The warning logged for a container of a pod whose process ids cannot be
    found, and the one logged for a process id whose connections cannot. *)
Definition containerWarning (p : v1.Pod) (entry : string * string) : LogEntry :=
  ("failed to get pids",
   [ zap_String "name" (metav1.Name (v1.ObjectMeta p));
     zap_String "namespace" (metav1.Namespace (v1.ObjectMeta p));
     zap_String "container" entry.1;
     zap_String "containerID" entry.2 ]).

Definition pidWarning (p : v1.Pod) (pid : Z) : LogEntry :=
  ("failed to get pids",
   [ zap_String "name" (metav1.Name (v1.ObjectMeta p));
     zap_String "namespace" (metav1.Namespace (v1.ObjectMeta p));
     zap_Int "pid" pid ]).

(** The warnings of the pod at position [n]: one for each container id for
    which [GetPids] fails, in the order the ids are visited, then one for
    each process id for which [GetConnections] fails. *)
Definition podWarnings (m : Monitor) (sched : Schedule) (n : nat) (p : v1.Pod)
  : list LogEntry :=
  let ids := rangeIDs sched n (runningContainerIDs (v1.Status p)) in
  let pids := rangePids sched n (podPids m p ids []) in
  (containerWarning p <$> filter (fun entry => (pidGetter m entry.2).2 <> None) ids) ++
  (pidWarning p <$> filter (fun pid => (connectionGetter m pid).2 <> None) pids).


(** A host named [web-1] whose address resolves back to [web-1.example.org.],
    and one whose name cannot be found. *)
Definition exampleHost : Host :=
  {| os_Hostname := ("web-1", None);
     net_LookupIP := fun name =>
       if String.eqb name "web-1"
       then ([[254; 128; 0; 0; 0; 0; 0; 0; 0; 0; 0; 0; 0; 0; 0; 1]; [10; 0; 0; 5]; [10; 0; 0; 6]],
             None)
       else ([], Some (ErrOS "no such host"));
     net_LookupAddr := fun ip =>
       if String.eqb ip "10.0.0.5" then (["web-1.example.org."; "alias."], None)
       else ([], Some (ErrOS "no reverse name"));
     zap_NewProduction := ({| origin := "production"; context := [] |}, None) |}.

Definition brokenHost : Host :=
  {| os_Hostname := ("", Some (ErrOS "hostname unavailable"));
     net_LookupIP := fun _ => ([], Some (ErrOS "no such host"));
     net_LookupAddr := fun _ => ([], Some (ErrOS "no reverse name"));
     zap_NewProduction := ({| origin := "none"; context := [] |},
                           Some (ErrOS "cannot open sink")) |}.

Definition failingOption : Option :=
  fun m => (m, Some (ErrOS "bad option")).

Definition exampleOptions : list Option :=
  [WithNodeName "node-1"; WithLogger (Some {| origin := "test"; context := [] |})].

(** The monitor the options of [exampleOptions] leave. *)
Definition exampleConfigured : Monitor :=
  {| podLister := podLister exampleMonitor; pidGetter := examplePidGetter;
     connectionGetter := exampleGetter;
     logger := Some {| origin := "test"; context := [] |};
     nodeName := "node-1" |}.

(** * Properties *)

(** ** Bytes and digits *)

Lemma hex_digit_facts (c : ascii) :
  isHexDigit c = true ->
  Go.fromHexChar c = Some (hexDigitValue c) /\
  Go.digitValue c = Some (hexDigitValue c) /\
  0 <= hexDigitValue c < 16 /\
  Ascii.eqb c "_" = false /\
  Ascii.eqb c ":" = false.
Proof.
  destruct c as [[] [] [] [] [] [] [] []]; intros H; vm_compute in H;
    try discriminate H; vm_compute;
    repeat split; try reflexivity; intros; discriminate.
Qed.

Lemma hexDigitValue_range (c : ascii) : 0 <= hexDigitValue c < 16.
Proof.
  destruct c as [[] [] [] [] [] [] [] []]; vm_compute;
    split; try reflexivity; intros; discriminate.
Qed.

Lemma not_hex_digit (c : ascii) :
  isHexDigit c = false -> Go.fromHexChar c = None.
Proof.
  destruct c as [[] [] [] [] [] [] [] []]; intros H; vm_compute in H;
    try discriminate H; reflexivity.
Qed.

Lemma allHex_countByte_colon (s : string) : allHex s = true -> colons s = 0%nat.
Proof.
  unfold colons. induction s as [|c r IH]; simpl; [done|].
  intros [Hc Hr]%andb_prop.
  destruct (hex_digit_facts c Hc) as (_ & _ & _ & _ & ->). auto.
Qed.

(** ** Split *)

Lemma Split_nonempty (s : string) (sep : ascii) : Go.Split s sep <> [].
Proof.
  destruct s as [|c r]; simpl; [done|].
  destruct (Ascii.eqb c sep); [done|]. by destruct (Go.Split r sep).
Qed.

Lemma Split_length (s : string) (sep : ascii) :
  length (Go.Split s sep) = S (countByte sep s).
Proof.
  induction s as [|c r IH]; simpl; [done|].
  destruct (Ascii.eqb c sep); simpl; [by rewrite IH|].
  destruct (Go.Split r sep) eqn:E; simpl in *; [done|]. done.
Qed.

Lemma Split_no_sep (s : string) (sep : ascii) :
  countByte sep s = 0%nat -> Go.Split s sep = [s].
Proof.
  induction s as [|c r IH]; simpl; [done|].
  destruct (Ascii.eqb c sep); [done|]. intros H. by rewrite (IH H).
Qed.

Lemma Split_app (a b : string) (sep : ascii) :
  countByte sep a = 0%nat ->
  Go.Split (a +:+ String sep b) sep = a :: Go.Split b sep.
Proof.
  induction a as [|c r IH]; simpl.
  - intros _. by rewrite Ascii.eqb_refl.
  - destruct (Ascii.eqb c sep); [done|]. intros H. by rewrite (IH H).
Qed.

Lemma Split_field (addr port : string) :
  colons addr = 0%nat -> colons port = 0%nat ->
  Go.Split (addr +:+ ":" +:+ port) ":" = [addr; port].
Proof.
  intros Ha Hp. change (":" +:+ port) with (String ":" port).
  rewrite (Split_app _ _ _ Ha). by rewrite (Split_no_sep _ _ Hp).
Qed.

(** ** ParseInt on hexadecimal digits *)

Lemma hexValueFrom_ge (s : string) (acc : Z) : 0 <= acc -> acc <= hexValueFrom acc s.
Proof.
  revert acc. induction s as [|c r IH]; simpl; intros acc Hacc; [lia|].
  pose proof (hexDigitValue_range c).
  etrans; [|apply IH]; lia.
Qed.

Lemma parseDigits_hex (s : string) (n : Z) (u : bool) :
  allHex s = true -> 0 <= n -> hexValueFrom n s < 2 ^ 64 ->
  Go.parseDigits 16 s n u = (hexValueFrom n s, u, None).
Proof.
  revert n. induction s as [|c r IH]; simpl; intros n Hs Hn Hlt; [done|].
  apply andb_prop in Hs as [Hc Hr].
  destruct (hex_digit_facts c Hc) as (_ & -> & Hd & -> & _).
  pose proof (hexValueFrom_ge r (n * 16 + hexDigitValue c) ltac:(lia)) as Hge.
  assert (Hmax : Go.maxUint64 = 18446744073709551615) by reflexivity.
  assert (Hpow : 2 ^ 64 = 18446744073709551616) by reflexivity.
  rewrite Hmax, Hpow in *.
  destruct (Z.leb_spec 16 (hexDigitValue c)); [lia|].
  change (18446744073709551615 / 16 + 1) with 1152921504606846976.
  destruct (Z.leb_spec 1152921504606846976 n); [lia|].
  rewrite (Z.mod_small (n * 16)) by lia.
  rewrite (Z.mod_small (n * 16 + hexDigitValue c)) by lia.
  destruct (Z.ltb_spec (n * 16 + hexDigitValue c) (n * 16)); [lia|].
  destruct (Z.ltb_spec 18446744073709551615 (n * 16 + hexDigitValue c)); [lia|].
  simpl. apply IH; [done|lia|lia].
Qed.

(** Reduce the tests [ParseInt] makes on the constant prefix [0x]. *)
Ltac prefix_tests :=
  repeat first
    [ progress change (Ascii.eqb "0" "-") with false
    | progress change (Ascii.eqb "0" "+") with false
    | progress change (Ascii.eqb "0" "0") with true
    | progress change (Go.lower "x" =? Go.byteZ "b") with false
    | progress change (Go.lower "x" =? Go.byteZ "o") with false
    | progress change (Go.lower "x" =? Go.byteZ "x") with true
    | progress simpl orb
    | progress simpl andb
    | progress simpl negb
    | progress cbv beta iota zeta ].

Lemma ParseInt_hex (port : string) :
  port <> "" -> allHex port = true -> hexValue port < 2 ^ 63 ->
  Go.ParseInt ("0x" +:+ port) = (hexValue port, None).
Proof.
  intros Hne Hhex Hlt. destruct port as [|c r]; [done|].
  pose proof (hexValueFrom_ge (String c r) 0 ltac:(lia)) as Hge.
  fold (hexValue (String c r)) in Hge.
  assert (Hlen : (3 <=? Go.len ("0x" +:+ String c r)) = true).
  { apply Z.leb_le. unfold Go.len. simpl String.length. lia. }
  unfold Go.ParseInt, Go.ParseUint.
  change ("0x" +:+ String c r) with (String "0" (String "x" (String c r))) in *.
  prefix_tests. rewrite Hlen. prefix_tests.
  rewrite (parseDigits_hex (String c r) 0 false Hhex) by (fold (hexValue (String c r)); lia).
  fold (hexValue (String c r)). prefix_tests.
  destruct (Z.leb_spec (2 ^ 63) (hexValue (String c r))); [lia|]. done.
Qed.

(** ** DecodeString on hexadecimal digits *)

Lemma nibbles_lor (a b : Z) :
  0 <= a < 16 -> 0 <= b < 16 -> Z.lor (Z.shiftl a 4) b = 16 * a + b.
Proof.
  intros Ha Hb.
  assert (Hbits : Z.land (Z.shiftl a 4) b = 0).
  { apply Z.bits_inj'. intros n Hn. rewrite Z.land_spec, Z.bits_0.
    destruct (Z.lt_ge_cases n 4) as [Hlt|Hge].
    - rewrite Z.shiftl_spec_low by lia. done.
    - rewrite (Z.bits_above_log2 b n); [apply andb_false_r|lia|].
      destruct (Z.eq_dec b 0) as [->|Hnz]; [simpl; lia|].
      apply Z.lt_le_trans with 4; [|lia].
      apply Z.log2_lt_pow2; [lia|]. change (2 ^ 4) with 16. lia. }
  rewrite <- Z.lxor_lor, <- Z.add_nocarry_lxor by done.
  rewrite Z.shiftl_mul_pow2 by lia. change (2 ^ 4) with 16. lia.
Qed.

Lemma DecodeString_hex_len (n : nat) (s : string) :
  String.length s = (2 * n)%nat -> allHex s = true ->
  Go.DecodeString s = (hexBytes s, None).
Proof.
  revert s. induction n as [|n IH]; intros s Hlen Hs.
  - destruct s; [done|]. simpl in Hlen. lia.
  - destruct s as [|p [|q r]]; simpl in Hlen; try lia.
    simpl in Hs. apply andb_prop in Hs as [Hp [Hq Hr]%andb_prop].
    destruct (hex_digit_facts p Hp) as (Ep & _ & Rp & _).
    destruct (hex_digit_facts q Hq) as (Eq & _ & Rq & _).
    cbn [Go.DecodeString hexBytes]. rewrite Ep, Eq, (IH r) by (done || lia).
    by rewrite nibbles_lor.
Qed.

Lemma DecodeString_hex (s : string) :
  Nat.Even (String.length s) -> allHex s = true ->
  Go.DecodeString s = (hexBytes s, None).
Proof. intros [n Hn]. by apply (DecodeString_hex_len n). Qed.

Lemma hexBytes_length (n : nat) (s : string) :
  String.length s = (2 * n)%nat -> length (hexBytes s) = n.
Proof.
  revert s. induction n as [|n IH]; intros s Hlen.
  - destruct s; [done|]. simpl in Hlen. lia.
  - destruct s as [|p [|q r]]; simpl in Hlen; try lia.
    cbn [hexBytes length]. f_equal. apply IH. lia.
Qed.

(** ** reverse *)

Lemma swap_ends (a m b : list Z) (x y : Z) :
  swap (a ++ x :: m ++ y :: b) (length a) (length a + S (length m)) =
  a ++ y :: m ++ x :: b.
Proof.
  unfold swap.
  rewrite list_lookup_middle by done.
  replace (a ++ x :: m ++ y :: b) with ((a ++ x :: m) ++ y :: b)
    by (by rewrite <- app_assoc).
  rewrite list_lookup_middle by (rewrite length_app; simpl; lia).
  rewrite <- app_assoc. cbn [app].
  rewrite (insert_app_r_alt a _ (length a)) by lia.
  rewrite Nat.sub_diag. cbn [insert list_insert].
  rewrite (insert_app_r_alt a _ (length a + S (length m))) by lia.
  replace (length a + S (length m) - length a)%nat with (S (length m)) by lia.
  cbn [insert list_insert]. f_equal. f_equal.
  rewrite (insert_app_r_alt m _ (length m)) by lia. by rewrite Nat.sub_diag.
Qed.

Lemma reverseLoop_middle (fuel : nat) (a m b : list Z) :
  (length m <= fuel)%nat ->
  reverseLoop fuel (a ++ m ++ b) (Z.of_nat (length a))
              (Z.of_nat (length a + length m) - 1) =
  a ++ rev m ++ b.
Proof.
  revert a m b. induction fuel as [|fuel IH]; intros a m b Hfuel.
  - destruct m; [done|]. simpl in Hfuel. lia.
  - cbn [reverseLoop]. destruct m as [|x m'].
    + destruct (_ <? _) eqn:E; [apply Z.ltb_lt in E; simpl in *; lia|done].
    + destruct m' as [|y m'' _] using rev_ind.
      * destruct (_ <? _) eqn:E; [apply Z.ltb_lt in E; simpl in *; lia|done].
      * rewrite length_cons, length_app in *. cbn [length] in *.
        destruct (_ <? _) eqn:E; [clear E|apply Z.ltb_ge in E; lia].
        rewrite Nat2Z.id.
        replace (Z.to_nat (Z.of_nat (length a + S (length m'' + 1)) - 1))
          with (length a + S (length m''))%nat by lia.
        replace (a ++ (x :: m'' ++ [y]) ++ b) with (a ++ x :: m'' ++ y :: b)
          by (cbn [app]; by rewrite <- app_assoc).
        rewrite swap_ends.
        replace (a ++ y :: m'' ++ x :: b) with ((a ++ [y]) ++ m'' ++ (x :: b))
          by (by rewrite <- app_assoc).
        replace (Z.of_nat (length a) + 1) with (Z.of_nat (length (a ++ [y])))
          by (rewrite length_app; simpl; lia).
        replace (Z.of_nat (length a + S (length m'' + 1)) - 1 - 1)
          with (Z.of_nat (length (a ++ [y]) + length m'') - 1)
          by (rewrite length_app; simpl; lia).
        rewrite IH by lia.
        cbn [rev]. rewrite rev_app_distr. cbn [rev app].
        rewrite <- !app_assoc. done.
Qed.

(** The in-place loop reverses the sequence. *)
Lemma reverse_rev (s : list Z) : reverse s = rev s.
Proof.
  unfold reverse.
  pose proof (reverseLoop_middle (length s) [] s [] (le_n _)) as H.
  rewrite !app_nil_r in H. exact H.
Qed.

(** ** decodeAddress *)

(** A field with one colon: the steps of [decodeAddress] after the split. *)
Lemma decodeAddress_field (family addr port : string) :
  colons addr = 0%nat -> colons port = 0%nat ->
  decodeAddress family (addr +:+ ":" +:+ port) =
  match Go.ParseInt ("0x" +:+ port) with
  | (_, Some _) => ("", Some (Errorf "invalid port %q" (addr +:+ ":" +:+ port)))
  | (p, None) =>
      match Go.DecodeString addr with
      | (_, Some e) => ("", Some (Wrapf e "decode error %q" addr))
      | (bs, None) =>
          (Go.IP_String (if String.eqb family "inet" then rev bs else [])
             +:+ ":" +:+ Go.Itoa p, None)
      end
  end.
Proof.
  intros Ha Hp. unfold decodeAddress.
  rewrite (Split_field _ _ Ha Hp). cbn [length Nat.eqb negb nth].
  destruct (Go.ParseInt ("0x" +:+ port)) as [p [e|]]; [done|].
  destruct (Go.DecodeString addr) as [bs [e|]]; [done|].
  by rewrite reverse_rev.
Qed.

Lemma IP_String_four (bytes : list Z) :
  length bytes = 4%nat -> Go.IP_String bytes = dotted bytes.
Proof.
  intros Hlen. destruct bytes as [|a [|b [|c [|d [|? ?]]]]]; try done.
Qed.

(** C1.  A field [HEXADDR:HEXPORT] of an IPv4 table (eight hexadecimal
    digits, a colon, a port in hexadecimal that fits an int64) decoded with
    the family [inet]: the decoder of the address gives the four bytes the
    digits write, [reverse] turns their order round, and the result is these
    bytes from last to first in dotted decimal, a colon, and the port in
    decimal, with no error.  In particular [0100007F:1538] gives
    [127.0.0.1:5432]. *)
Theorem decodeAddress_inet_ipv4 :
  (forall addr port : string,
     String.length addr = 8%nat -> allHex addr = true ->
     port <> "" -> allHex port = true -> hexValue port < 2 ^ 63 ->
     Go.DecodeString addr = (hexBytes addr, None) /\
     reverse (hexBytes addr) = rev (hexBytes addr) /\
     decodeAddress "inet" (addr +:+ ":" +:+ port) =
       (dotted (rev (hexBytes addr)) +:+ ":" +:+ Go.Itoa (hexValue port), None)) /\
  decodeAddress "inet" "0100007F:1538" = ("127.0.0.1:5432", None).
Proof.
  split; [|reflexivity].
  intros addr port Hlen Haddr Hne Hport Hfit.
  assert (Hdec : Go.DecodeString addr = (hexBytes addr, None))
    by (by apply (DecodeString_hex_len 4)).
  split; [done|]. split; [apply reverse_rev|].
  rewrite decodeAddress_field by (by apply allHex_countByte_colon).
  rewrite (ParseInt_hex port Hne Hport Hfit), Hdec.
  change (String.eqb "inet" "inet") with true. cbv iota.
  rewrite IP_String_four; [done|].
  rewrite length_rev. by apply hexBytes_length.
Qed.

Lemma decodeAddress_inet_ipv4_witness :
  decodeAddress "inet" ("0A00020F" +:+ ":" +:+ "0050") =
    (dotted (rev (hexBytes "0A00020F")) +:+ ":" +:+ Go.Itoa (hexValue "0050"), None).
Proof.
  apply (proj1 decodeAddress_inet_ipv4 "0A00020F" "0050");
    first [reflexivity | discriminate].
Defined.

(** C2.  [decodeAddress] fails with the error [does not contain port]
    exactly when the field does not hold exactly one colon. *)
Theorem decodeAddress_malformed_iff (family src : string) :
  decodeAddress family src = ("", Some (Errorf "does not contain port %q" src))
  <-> colons src <> 1%nat.
Proof.
  unfold decodeAddress, colons. rewrite Split_length.
  destruct (Nat.eqb_spec (S (countByte ":" src)) 2) as [E|E]; cbn [negb].
  - split; [|lia]. intros H. exfalso.
    destruct (Go.ParseInt _) as [p [e|]]; [discriminate H|].
    destruct (Go.DecodeString _) as [bs [e|]]; discriminate H.
  - split; [lia|done].
Qed.

(** C3, as the code has it.  For a field with one colon: when the
    decoding of the address from hexadecimal fails, [decodeAddress] fails,
    with [decode error] around that failure when the port parses (the port
    is read first, and a port that does not parse gives [invalid port]);
    when the decoding succeeds and the port parses, [decodeAddress] succeeds
    whatever the number of bytes, and formats the bytes (from last to first
    for [inet], none otherwise) as [net.IP] prints them. *)
Theorem decodeAddress_decode_error (family addr port : string) :
  colons addr = 0%nat -> colons port = 0%nat ->
  (forall bs e, Go.DecodeString addr = (bs, Some e) ->
     decodeAddress family (addr +:+ ":" +:+ port) =
       match (Go.ParseInt ("0x" +:+ port)).2 with
       | None => ("", Some (Wrapf e "decode error %q" addr))
       | Some _ => ("", Some (Errorf "invalid port %q" (addr +:+ ":" +:+ port)))
       end) /\
  (forall bs p, Go.DecodeString addr = (bs, None) ->
     Go.ParseInt ("0x" +:+ port) = (p, None) ->
     decodeAddress family (addr +:+ ":" +:+ port) =
       (Go.IP_String (if String.eqb family "inet" then rev bs else [])
          +:+ ":" +:+ Go.Itoa p, None)).
Proof.
  intros Ha Hp. split.
  - intros bs e Hdec. rewrite decodeAddress_field by done.
    destruct (Go.ParseInt ("0x" +:+ port)) as [p [perr|]]; cbn [snd]; [done|].
    by rewrite Hdec.
  - intros bs p Hdec Hport. rewrite decodeAddress_field by done.
    by rewrite Hport, Hdec.
Qed.

Lemma decodeAddress_decode_error_witness :
  decodeAddress "inet" ("0z" +:+ ":" +:+ "1538") =
    ("", Some (Wrapf (InvalidByteError "z") "decode error %q" "0z")) /\
  decodeAddress "inet" ("0A00020F0A00" +:+ ":" +:+ "1538") =
    (Go.IP_String (rev [10; 0; 2; 15; 10; 0]) +:+ ":" +:+ Go.Itoa 5432, None).
Proof.
  split.
  - apply (proj1 (decodeAddress_decode_error "inet" "0z" "1538" eq_refl eq_refl) []).
    reflexivity.
  - apply (proj2 (decodeAddress_decode_error "inet" "0A00020F0A00" "1538"
                    eq_refl eq_refl) [10; 0; 2; 15; 10; 0] 5432);
      reflexivity.
Defined.

(** C3 as the specification states it fails: the address [0100] is valid
    hexadecimal and decodes to two bytes, not four, and [decodeAddress]
    with the family [inet] returns a string and no error. *)
Lemma decodeAddress_no_length_check :
  Go.DecodeString "0100" = ([1; 0], None) /\
  length [1; 0] <> 4%nat /\
  decodeAddress "inet" "0100:1538" = ("?0001:5432", None).
Proof. repeat split; done. Qed.

(** C10.  With a family other than [inet], a field whose address is an
    even number of hexadecimal digits and whose port is hexadecimal and fits
    an int64 decodes without error to [<nil>], a colon and the port in
    decimal. *)
Theorem decodeAddress_other_family (family addr port : string) :
  family <> "inet" ->
  Nat.Even (String.length addr) -> allHex addr = true ->
  port <> "" -> allHex port = true -> hexValue port < 2 ^ 63 ->
  decodeAddress family (addr +:+ ":" +:+ port) =
    ("<nil>" +:+ ":" +:+ Go.Itoa (hexValue port), None).
Proof.
  intros Hfam Heven Haddr Hne Hport Hfit.
  rewrite decodeAddress_field by (by apply allHex_countByte_colon).
  rewrite (ParseInt_hex port Hne Hport Hfit), (DecodeString_hex addr Heven Haddr).
  apply String.eqb_neq in Hfam. by rewrite Hfam.
Qed.

Lemma decodeAddress_other_family_witness :
  decodeAddress "inet6" ("0100007F" +:+ ":" +:+ "1538") = ("<nil>:5432", None).
Proof.
  apply (decodeAddress_other_family "inet6" "0100007F" "1538");
    first [discriminate | reflexivity | by exists 4%nat].
Defined.

(** ** processINET *)

(** A line either leaves [out] as it is or adds one connection to its end. *)
Lemma processLine_app (kind : netConnectionKindType) (out : list Connection)
    (line : string) :
  processLine kind out line = out ++ processLine kind [] line.
Proof.
  unfold processLine.
  destruct (length (Go.Fields line) <? 10)%nat; [by rewrite app_nil_r|].
  destruct (decodeAddress _ (nth 1 _ _)) as [la [e|]]; [by rewrite app_nil_r|].
  destruct (decodeAddress _ (nth 2 _ _)) as [ra [e|]]; [by rewrite app_nil_r|].
  done.
Qed.

Lemma processLine_short (kind : netConnectionKindType) (out : list Connection)
    (line : string) :
  ~ wellFormedRow line -> processLine kind out line = out.
Proof.
  unfold wellFormedRow, processLine. intros H.
  destruct (Nat.ltb_spec (length (Go.Fields line)) 10); [done|lia].
Qed.

(** What a line adds comes from a well-formed row and carries the family
    and type of the kind and the status read from field 3. *)
Lemma processLine_row (kind : netConnectionKindType) (line : string) (c : Connection) :
  c ∈ processLine kind [] line ->
  wellFormedRow line /\
  Family c = family kind /\ Type_ c = sockType kind /\
  Status c = rowStatus kind (nth 3 (Go.Fields line) "").
Proof.
  unfold wellFormedRow, processLine.
  destruct (Nat.ltb_spec (length (Go.Fields line)) 10); [by intros ?%elem_of_nil|].
  destruct (decodeAddress _ (nth 1 _ _)) as [la [e|]]; [by intros ?%elem_of_nil|].
  destruct (decodeAddress _ (nth 2 _ _)) as [ra [e|]]; [by intros ?%elem_of_nil|].
  cbn [app]. intros ->%list_elem_of_singleton. done.
Qed.

Lemma processLines_flat_map (kind : netConnectionKindType) (lines : list string)
    (out : list Connection) :
  fold_left (processLine kind) lines out =
  out ++ flat_map (processLine kind []) lines.
Proof.
  revert out. induction lines as [|line lines IH]; intros out; cbn [fold_left flat_map].
  - by rewrite app_nil_r.
  - by rewrite IH, (processLine_app kind out line), <- app_assoc.
Qed.

(** Rows that are not well formed can be left out of the table. *)
Lemma processLines_filter (kind : netConnectionKindType) (lines : list string) :
  fold_left (processLine kind) (filter wellFormedRow lines) [] =
  fold_left (processLine kind) lines [].
Proof.
  rewrite !processLines_flat_map. f_equal.
  induction lines as [|line lines IH]; [done|].
  rewrite filter_cons. destruct (decide (wellFormedRow line)) as [Hw|Hw]; cbn [flat_map].
  - by rewrite IH.
  - by rewrite IH, (processLine_short kind [] line Hw).
Qed.

Lemma processINET_readable (ReadFile : FileSystem) (filename contents : string)
    (kind : netConnectionKindType) :
  ReadFile filename = (contents, None) ->
  processINET ReadFile filename kind =
  (fold_left (processLine kind) (drop 1 (Go.Split contents newline)) [], None).
Proof. intros H. unfold processINET. by rewrite H. Qed.

Lemma processINET_error (ReadFile : FileSystem) (filename : string)
    (kind : netConnectionKindType) (e : error) :
  (processINET ReadFile filename kind).2 = Some e ->
  exists cause, (ReadFile filename).2 = Some cause /\
    e = Wrapf cause "failed to read file %q" filename /\
    (processINET ReadFile filename kind).1 = [].
Proof.
  unfold processINET. destruct (ReadFile filename) as [contents [cause|]]; cbn.
  - intros [= <-]. by exists cause.
  - discriminate.
Qed.

Lemma rowStatus_nonempty (kind : netConnectionKindType) (code : string) :
  rowStatus kind code <> "".
Proof.
  unfold rowStatus. destruct (String.eqb (sockType kind) "tcp").
  - destruct (String.eqb_spec (default "" (_TCPStatuses !! code)) ""); done.
  - done.
Qed.

(** C4.  Every connection of the output of [processINET] has a status that
    is not empty: it is the status of field 3 of a line of the file after
    the first.  For a TCP kind each code of the table of the specification
    gives its state, and each code stands once in the table; a code outside
    the table gives [NONE]; a kind that is not TCP gives [NONE] for every
    code. *)
Theorem processINET_status :
  (forall (ReadFile : FileSystem) filename kind c,
     c ∈ (processINET ReadFile filename kind).1 ->
     Status c <> "" /\
     exists line,
       line ∈ drop 1 (Go.Split (ReadFile filename).1 newline) /\
       Status c = rowStatus kind (nth 3 (Go.Fields line) "")) /\
  (forall kind code name,
     sockType kind = "tcp" -> (code, name) ∈ tcpStateTable ->
     rowStatus kind code = name) /\
  NoDup tcpCodes /\ length tcpCodes = 11%nat /\
  (forall kind code, code ∉ tcpCodes -> rowStatus kind code = "NONE") /\
  (forall kind code, sockType kind <> "tcp" -> rowStatus kind code = "NONE").
Proof.
  split; [|split; [|split; [|split; [|split]]]].
  - intros ReadFile filename kind c. unfold processINET.
    destruct (ReadFile filename) as [contents [e|]]; cbn [fst snd].
    { by intros ?%elem_of_nil. }
    rewrite processLines_flat_map. cbn [app].
    intros (line & Hline & Hc)%list_elem_of_In%in_flat_map.
    apply list_elem_of_In in Hline, Hc.
    destruct (processLine_row kind line c Hc) as (_ & _ & _ & Hst).
    split; [rewrite Hst; apply rowStatus_nonempty|]. by exists line.
  - intros kind code name Htcp Hin. unfold rowStatus. rewrite Htcp.
    change (String.eqb "tcp" "tcp") with true. cbv iota.
    revert code name Hin.
    assert (H : Forall (fun cn : string * string =>
                let st := default "" (_TCPStatuses !! cn.1) in
                (if String.eqb st "" then "NONE" else st) = cn.2) tcpStateTable).
    { unfold tcpStateTable. repeat (constructor; [vm_compute; reflexivity|]).
      constructor. }
    intros code name Hin. exact (proj1 (Forall_forall _ _) H (code, name) Hin).
  - unfold tcpCodes, tcpStateTable. cbn [fmap list_fmap fst].
    apply (bool_decide_unpack (NoDup _)). vm_compute. exact I.
  - reflexivity.
  - intros kind code Hout. unfold rowStatus.
    assert (Hnone : _TCPStatuses !! code = None).
    { apply not_elem_of_list_to_map_1. exact Hout. }
    rewrite Hnone. cbn [default]. by destruct (String.eqb (sockType kind) "tcp").
  - intros kind code Hudp. unfold rowStatus.
    apply String.eqb_neq in Hudp. by rewrite Hudp.
Qed.

(** The first line of a table is the text before the first newline. *)
Lemma Split_header (header rest : string) :
  countByte newline header = 0%nat ->
  drop 1 (Go.Split (header +:+ String newline rest) newline) = Go.Split rest newline.
Proof. intros H. by rewrite (Split_app _ _ _ H). Qed.

(** C5.  On a file that can be read [processINET] returns no error, and
    its output is what the rows with ten fields or more give, taken among
    the lines after the first: the first line is left out whatever it
    holds, a line with fewer than ten fields adds nothing, and every
    connection of the output comes from a later line with ten fields or
    more. *)
Theorem processINET_header_and_short_rows (ReadFile : FileSystem)
    (filename contents : string) (kind : netConnectionKindType) :
  ReadFile filename = (contents, None) ->
  let lines := Go.Split contents newline in
  let out := (processINET ReadFile filename kind).1 in
  (processINET ReadFile filename kind).2 = None /\
  out = fold_left (processLine kind) (filter wellFormedRow (drop 1 lines)) [] /\
  (forall header rest,
     contents = header +:+ String newline rest ->
     countByte newline header = 0%nat ->
     out = fold_left (processLine kind)
             (filter wellFormedRow (Go.Split rest newline)) []) /\
  (forall line, ~ wellFormedRow line ->
     forall acc, processLine kind acc line = acc) /\
  (forall c, c ∈ out ->
     exists line, line ∈ drop 1 lines /\ wellFormedRow line /\
                  c ∈ processLine kind [] line).
Proof.
  intros Hread lines out. subst lines out.
  rewrite (processINET_readable _ _ _ _ Hread). cbn [fst snd].
  split; [done|]. split; [by rewrite processLines_filter|].
  split; [|split].
  - intros header rest -> Hheader.
    by rewrite (Split_header _ _ Hheader), processLines_filter.
  - intros line Hshort acc. by apply processLine_short.
  - intros c. rewrite processLines_flat_map. cbn [app].
    intros (line & Hline & Hc)%list_elem_of_In%in_flat_map.
    apply list_elem_of_In in Hline, Hc.
    exists line. split; [done|]. split; [|done].
    by destruct (processLine_row kind line c Hc).
Qed.

(** C6.  When the file cannot be read, [processINET] returns no connection
    and the error of the read wrapped with the path; when the file holds
    the header line alone, with or without its newline, it returns no
    connection and no error. *)
Theorem processINET_unreadable_or_header_only (ReadFile : FileSystem)
    (filename : string) (kind : netConnectionKindType) :
  (forall contents cause,
     ReadFile filename = (contents, Some cause) ->
     processINET ReadFile filename kind =
       ([], Some (Wrapf cause "failed to read file %q" filename))) /\
  (forall header,
     countByte newline header = 0%nat ->
     ReadFile filename = (header, None) \/
     ReadFile filename = (header +:+ String newline "", None) ->
     processINET ReadFile filename kind = ([], None)).
Proof.
  split.
  - intros contents cause H. unfold processINET. by rewrite H.
  - intros header Hheader [H|H]; rewrite (processINET_readable _ _ _ _ H).
    + by rewrite (Split_no_sep _ _ Hheader).
    + by rewrite (Split_header _ _ Hheader).
Qed.

(** ** GetConnections *)

Lemma append_each (connections out : list Connection) :
  fold_left (fun out c => out ++ [c]) connections out = out ++ connections.
Proof.
  revert out. induction connections as [|c cs IH]; intros out; cbn [fold_left].
  - by rewrite app_nil_r.
  - by rewrite IH, <- app_assoc.
Qed.

Lemma getConnections_loop (ReadFile : FileSystem) (root : string) (pid : Z)
    (kinds : list netConnectionKindType) (out : list Connection) (result : list error) :
  fold_left (getConnectionsStep ReadFile root pid) kinds (out, result) =
  (out ++ flat_map parsed (kindResults ReadFile root pid kinds),
   result ++ omap snd (kindResults ReadFile root pid kinds)).
Proof.
  revert out result. induction kinds as [|k kinds IH]; intros out result.
  - cbn. by rewrite !app_nil_r.
  - cbn [fold_left kindResults fmap list_fmap flat_map omap list_omap].
    fold (kindResults ReadFile root pid kinds).
    unfold getConnectionsStep at 2. unfold parsed at 1.
    destruct (processINET ReadFile _ k) as [connections [e|]] eqn:E; cbn [fst snd].
    + destruct (processINET_error ReadFile
                  (Go.filepath_Join [root; Go.Itoa pid; filename k]) k e)
        as (cause & _ & -> & _); [by rewrite E|].
      cbn [multierror_Append]. rewrite IH. cbn [app]. by rewrite <- app_assoc.
    + rewrite append_each, IH. by rewrite <- app_assoc.
Qed.

Lemma all_parsed (results : list (list Connection * option error)) :
  (forall r, r ∈ results -> r.2 = None) ->
  flat_map parsed results = concat (fst <$> results) /\
  NilOrError (omap snd results) = None.
Proof.
  induction results as [|r rs IH]; intros Hall; [done|].
  destruct IH as [IH1 IH2]; [intros r' Hr'; apply Hall; by right|].
  assert (Hr : r.2 = None) by (apply Hall; by left).
  cbn [flat_map fmap list_fmap concat omap list_omap].
  rewrite IH1, Hr. unfold parsed. rewrite Hr. split; [done|].
  by destruct (omap snd rs).
Qed.

(** C7.  [GetConnections] asks the parser for every kind of
    [connectionKindTypes].  Its connections are those of the kinds that
    parsed, in the order of the kinds; its error is nil when no kind
    failed, and otherwise the aggregate of the errors of all the kinds that
    failed, in the order of the kinds. *)
Theorem GetConnections_accumulates (ReadFile : FileSystem) (root : string) (pid : Z) :
  let root' := if String.eqb root "" then "/proc" else root in
  let results := kindResults ReadFile root' pid connectionKindTypes in
  let failures := omap snd results in
  length results = length connectionKindTypes /\
  (GetConnections ReadFile root pid).1 = flat_map parsed results /\
  (GetConnections ReadFile root pid).2 =
    match failures with
    | [] => None
    | _ => Some (MultiError failures)
    end /\
  ((forall r, r ∈ results -> r.2 = None) ->
   (GetConnections ReadFile root pid).1 = concat (fst <$> results) /\
   (GetConnections ReadFile root pid).2 = None) /\
  (forall r e, r ∈ results -> r.2 = Some e ->
     exists errs, (GetConnections ReadFile root pid).2 = Some (MultiError errs) /\
                  e ∈ errs).
Proof.
  intros root' results failures.
  assert (Hrun : GetConnections ReadFile root pid =
                 (flat_map parsed results, NilOrError failures)).
  { unfold GetConnections. fold root'.
    rewrite (getConnections_loop ReadFile root' pid connectionKindTypes [] []).
    done. }
  rewrite Hrun. cbn [fst snd].
  split; [by unfold results, kindResults; rewrite length_fmap|].
  split; [done|]. split; [by destruct failures|]. split.
  - intros Hall. by apply all_parsed.
  - intros r e Hr He.
    assert (Hin : e ∈ failures).
    { apply list_elem_of_omap. by exists r. }
    destruct failures as [|e0 errs]; [by apply elem_of_nil in Hin|].
    by exists (e0 :: errs).
Qed.

(** ** Monitor.Collect: the connections of a pod *)

Lemma collectConnections_recorded (GetConnections : Z -> list Connection * option error)
    (order : list Z) (connections : gmap string Connection) :
  fold_left (collectPid GetConnections) order connections =
  fold_left record (recorded GetConnections order) connections.
Proof.
  revert connections. induction order as [|pid order IH]; intros connections; [done|].
  cbn [fold_left recorded flat_map]. rewrite fold_left_app, IH.
  unfold collectPid. by destruct (GetConnections pid).
Qed.

Lemma record_keyed (l : list Connection) (connections : gmap string Connection) :
  keyed connections -> keyed (fold_left record l connections).
Proof.
  revert connections. induction l as [|i l IH]; intros connections Hk; [done|].
  cbn [fold_left]. apply IH. intros k c. unfold record.
  destruct (decide (connectionKey i = k)) as [<-|Hne].
  - rewrite lookup_insert_eq. by intros [= <-].
  - rewrite lookup_insert_ne by done. apply Hk.
Qed.

Lemma record_other_keys (l : list Connection) (connections : gmap string Connection)
    (k : string) :
  (forall c, c ∈ l -> connectionKey c <> k) ->
  fold_left record l connections !! k = connections !! k.
Proof.
  revert connections. induction l as [|i l IH]; intros connections Hl; [done|].
  cbn [fold_left]. rewrite IH by (intros c Hc; apply Hl; by right).
  unfold record. apply lookup_insert_ne, Hl. by left.
Qed.

(** The last connection recorded under a key is the one the map holds. *)
Lemma record_last (xs ys : list Connection) (c : Connection)
    (connections : gmap string Connection) :
  (forall c', c' ∈ ys -> connectionKey c' <> connectionKey c) ->
  fold_left record (xs ++ c :: ys) connections !! connectionKey c = Some c.
Proof.
  intros Hys. rewrite fold_left_app. cbn [fold_left].
  rewrite record_other_keys by done. unfold record. apply lookup_insert_eq.
Qed.

Lemma filter_none {A : Type} (P : A -> Prop) `{!forall x, Decision (P x)} (l : list A) :
  (forall x, x ∈ l -> ~ P x) -> filter P l = [].
Proof.
  induction l as [|x l IH]; intros Hl; [done|].
  rewrite filter_cons_False by (apply Hl; by left).
  apply IH. intros y Hy. apply Hl. by right.
Qed.

(** A keyed map holds one connection for a key it knows. *)
Lemma connectionValues_key (connections : gmap string Connection) (c : Connection) :
  keyed connections ->
  connections !! connectionKey c = Some c ->
  filter (fun c' => connectionKey c' = connectionKey c) (connectionValues connections)
  = [c].
Proof.
  intros Hk Hc. symmetry. apply Permutation_singleton_l.
  unfold connectionValues.
  rewrite <- (map_to_list_delete connections _ _ Hc).
  cbn [fmap list_fmap snd]. rewrite filter_cons_True by done.
  rewrite filter_none; [done|].
  intros c' Hc' Hkey.
  apply list_elem_of_fmap in Hc' as ([k' v'] & -> & Hin).
  apply elem_of_map_to_list in Hin. cbn [snd] in Hkey.
  destruct (decide (k' = connectionKey c)) as [->|Hne].
  - by rewrite lookup_delete_eq in Hin.
  - rewrite lookup_delete_ne in Hin by done. apply Hk in Hin. congruence.
Qed.

(** C8.  Two connections [c1] and [c2] found under two process ids agree on
    family, type, local and remote address and differ in status, and [c2]
    is the later one: nothing recorded after it has its key.  Then the
    connections returned for the pod hold exactly one connection with that
    key and exactly one with these four fields; it is [c2], with the status
    of [c2], and [c1] is not among them.  This holds for every order in
    which the process ids are visited that puts the id of [c1] first. *)
Theorem Collect_last_write_wins
    (GetConnections : Z -> list Connection * option error)
    (before between after : list Z) (p1 p2 : Z) (c1 c2 : Connection)
    (xs ys : list Connection) :
  p1 <> p2 ->
  c1 ∈ (GetConnections p1).1 ->
  (GetConnections p2).1 = xs ++ c2 :: ys ->
  sameEndpoints c1 c2 ->
  Status c1 <> Status c2 ->
  (forall c, c ∈ ys ++ recorded GetConnections after ->
             connectionKey c <> connectionKey c2) ->
  let conns :=
    connectionValues
      (collectConnections GetConnections (before ++ p1 :: between ++ p2 :: after)) in
  connectionKey c1 = connectionKey c2 /\
  filter (fun c => connectionKey c = connectionKey c2) conns = [c2] /\
  filter (sameEndpoints c2) conns = [c2] /\
  c1 ∉ conns.
Proof.
  intros _ _ Hp2 Hsame Hstatus Hlater conns.
  assert (Hkey : connectionKey c1 = connectionKey c2).
  { destruct Hsame as (Hf & Ht & Hl & Hr). unfold connectionKey.
    by rewrite Hf, Ht, Hl, Hr. }
  assert (Hone : filter (fun c => connectionKey c = connectionKey c2) conns = [c2]).
  { subst conns. unfold collectConnections. rewrite collectConnections_recorded.
    apply connectionValues_key.
    - apply record_keyed. intros k c. by rewrite lookup_empty.
    - replace (recorded GetConnections (before ++ p1 :: between ++ p2 :: after))
        with ((recorded GetConnections (before ++ p1 :: between) ++ xs) ++
              c2 :: (ys ++ recorded GetConnections after)).
      + by apply record_last.
      + unfold recorded.
        replace (before ++ p1 :: between ++ p2 :: after)
          with ((before ++ p1 :: between) ++ p2 :: after)
          by (by rewrite <- app_assoc).
        rewrite (flat_map_app _ (before ++ p1 :: between)). cbn [flat_map].
        rewrite Hp2, <- !app_assoc. done. }
  split; [done|]. split; [done|].
  assert (Hsub : forall c, sameEndpoints c2 c -> connectionKey c = connectionKey c2).
  { intros c (Hf & Ht & Hl & Hr). unfold connectionKey. by rewrite Hf, Ht, Hl, Hr. }
  split.
  - rewrite <- (list_filter_filter_l _ (fun c => connectionKey c = connectionKey c2))
      by exact Hsub.
    rewrite Hone. rewrite filter_cons_True by done. done.
  - intros Hin.
    assert (Hc1 : c1 ∈ filter (fun c => connectionKey c = connectionKey c2) conns)
      by (by apply list_elem_of_filter).
    rewrite Hone in Hc1. apply list_elem_of_singleton in Hc1. by subst c1.
Qed.

Lemma Collect_last_write_wins_witness :
  let conns := connectionValues (collectConnections exampleGetter [11; 12]) in
  connectionKey exampleEstablished = connectionKey exampleCloseWait /\
  filter (fun c => connectionKey c = connectionKey exampleCloseWait) conns
    = [exampleCloseWait] /\
  filter (sameEndpoints exampleCloseWait) conns = [exampleCloseWait] /\
  exampleEstablished ∉ conns.
Proof.
  apply (Collect_last_write_wins exampleGetter [] [] [] 11 12
           exampleEstablished exampleCloseWait [] []).
  - discriminate.
  - right. left.
  - reflexivity.
  - repeat split.
  - discriminate.
  - intros c Hc. by apply elem_of_nil in Hc.
Defined.

(** ** GetPids *)

(** What [GetPids] returns for a container the runtime knows. *)
Lemma GetPids_inspected (ContainerInspect : string -> ContainerJSON * option error)
    (id : string) (info : ContainerJSON) (state : ContainerState) :
  Go.HasPrefix id mobyPrefix = true ->
  ContainerInspect (Go.TrimPrefix id mobyPrefix) = (info, None) ->
  State info = Some state ->
  GetPids ContainerInspect id =
    if 0 <=? Pid state then ([], None) else ([Pid state], None).
Proof.
  intros Hprefix Hinspect Hstate. unfold GetPids.
  rewrite Hprefix. cbn [negb]. by rewrite Hinspect, Hstate.
Qed.

(** C9, on the code.  For a container that was inspected with success and
    runs as process 4242, [GetPids] returns no process id and no error; for
    one whose process id is the negative -1 it returns the list holding -1.
    The test [pid >= 0] of the source is the reverse of the one that
    would return the process ids of a running container. *)
Theorem GetPids_sign_test_reversed :
  GetPids (exampleInspect 4242) "docker://abc" = ([], None) /\
  GetPids (exampleInspect (-1)) "docker://abc" = ([-1], None).
Proof. split; reflexivity. Qed.

(** ** Instances *)

Lemma processINET_status_witness :
  Status exampleListen <> "" /\
  exists line,
    line ∈ drop 1 (Go.Split (exampleFS "/proc/7/tcp").1 newline) /\
    Status exampleListen = rowStatus tcpKind (nth 3 (Go.Fields line) "").
Proof.
  apply (proj1 processINET_status exampleFS "/proc/7/tcp" tcpKind exampleListen).
  vm_compute. left.
Defined.

Lemma processINET_header_and_short_rows_witness :
  (processINET exampleFS "/proc/7/tcp" tcpKind).2 = None /\
  (processINET exampleFS "/proc/7/tcp" tcpKind).1 =
    fold_left (processLine tcpKind)
      (filter wellFormedRow (drop 1 (Go.Split exampleTable newline))) [].
Proof.
  destruct (processINET_header_and_short_rows exampleFS "/proc/7/tcp" exampleTable
              tcpKind eq_refl) as (Herr & Hout & _).
  split; [exact Herr|exact Hout].
Defined.

Lemma processINET_unreadable_or_header_only_witness :
  processINET exampleFS "/proc/7/udp" tcpKind =
    ([], Some (Wrapf (ErrOS "no such file or directory")
                 "failed to read file %q" "/proc/7/udp")) /\
  processINET exampleFS "/proc/8/tcp" tcpKind = ([], None).
Proof.
  split.
  - apply (proj1 (processINET_unreadable_or_header_only exampleFS "/proc/7/udp" tcpKind) "").
    reflexivity.
  - apply (proj2 (processINET_unreadable_or_header_only exampleFS "/proc/8/tcp" tcpKind)
             exampleHeader).
    + reflexivity.
    + left. reflexivity.
Defined.

Lemma GetConnections_accumulates_witness :
  (GetConnections exampleFS "" 7).1 = [exampleListen] /\
  (GetConnections exampleFS "" 7).2 =
    Some (MultiError [Wrapf (ErrOS "no such file or directory")
                        "failed to read file %q" "/proc/7/udp"]).
Proof.
  destruct (GetConnections_accumulates exampleFS "" 7) as (_ & Hout & Herr & _).
  split; [exact Hout|exact Herr].
Defined.

(** * Further properties of the code *)

(** ** decodeAddress: failures *)

Lemma parseDigits_hex_overflow (s : string) (n : Z) (u : bool) :
  allHex s = true -> 0 <= n < 2 ^ 64 -> 2 ^ 64 <= hexValueFrom n s ->
  Go.parseDigits 16 s n u = (Go.maxUint64, u, Some ErrRange).
Proof.
  revert n. induction s as [|c r IH]; simpl; intros n Hs Hn Hge; [lia|].
  apply andb_prop in Hs as [Hc Hr].
  destruct (hex_digit_facts c Hc) as (_ & -> & Hd & -> & _).
  assert (Hmax : Go.maxUint64 = 18446744073709551615) by reflexivity.
  assert (Hpow : 2 ^ 64 = 18446744073709551616) by reflexivity.
  rewrite Hmax, Hpow in *.
  destruct (Z.leb_spec 16 (hexDigitValue c)); [lia|].
  change (18446744073709551615 / 16 + 1) with 1152921504606846976.
  destruct (Z.leb_spec 1152921504606846976 n); [done|].
  rewrite (Z.mod_small (n * 16)) by lia.
  rewrite (Z.mod_small (n * 16 + hexDigitValue c)) by lia.
  destruct (Z.ltb_spec (n * 16 + hexDigitValue c) (n * 16)); [lia|].
  destruct (Z.ltb_spec 18446744073709551615 (n * 16 + hexDigitValue c)); [lia|].
  simpl. apply IH; [done|lia|lia].
Qed.

Lemma parseDigits_nonneg (base : Z) (s : string) (n : Z) (u : bool) (n' : Z) (u' : bool) :
  0 <= n -> Go.parseDigits base s n u = (n', u', None) -> 0 <= n'.
Proof.
  revert n u. induction s as [|c r IH]; simpl; intros n u Hn.
  - by intros [= <- _].
  - destruct (Ascii.eqb c "_"); [by apply IH|].
    destruct (Go.digitValue c) as [d|]; [|discriminate].
    destruct (base <=? d); [discriminate|].
    destruct (_ <=? n); [discriminate|].
    destruct (_ || _); [discriminate|].
    apply IH. apply Z.mod_pos_bound. reflexivity.
Qed.

Lemma parseDigits_error (base : Z) (s : string) (n : Z) (u : bool)
    (n' : Z) (u' : bool) (e : error) :
  Go.parseDigits base s n u = (n', u', Some e) ->
  e = ErrSyntax \/ (e = ErrRange /\ n' = Go.maxUint64).
Proof.
  revert n u. induction s as [|c r IH]; simpl; intros n u; [discriminate|].
  destruct (Ascii.eqb c "_"); [by apply IH|].
  destruct (Go.digitValue c) as [d|]; [|intros [= _ _ <-]; by left].
  destruct (base <=? d); [intros [= _ _ <-]; by left|].
  destruct (_ <=? n); [intros [= <- _ <-]; by right|].
  destruct (_ || _); [intros [= <- _ <-]; by right|].
  by apply IH.
Qed.

(** What [ParseUint] returns: a number that is not negative, a syntax
    error, or a range error beside the largest value. *)
Lemma ParseUint_result (s : string) (un : Z) (o : option error) :
  Go.ParseUint s = (un, o) ->
  match o with
  | None => 0 <= un
  | Some e => e = ErrSyntax \/ (e = ErrRange /\ un = Go.maxUint64)
  end.
Proof.
  unfold Go.ParseUint. destruct s as [|c0 r0]; [intros [= <- <-]; by left|].
  destruct (if Ascii.eqb c0 "0" then _ else _) as [base digits].
  destruct (Go.parseDigits base digits 0 false) as [[n us] [e|]] eqn:Ed.
  - intros [= <- <-]. by apply parseDigits_error in Ed.
  - apply parseDigits_nonneg in Ed; [|done].
    destruct (us && _); intros [= <- <-]; [by left|done].
Qed.

(** The port of a field that parses lies between 0 and 2^63. *)
Lemma ParseInt_0x_range (t : string) (p : Z) :
  Go.ParseInt ("0x" +:+ t) = (p, None) -> 0 <= p < 2 ^ 63.
Proof.
  change ("0x" +:+ t) with (String "0" (String "x" t)).
  unfold Go.ParseInt. prefix_tests.
  destruct (Go.ParseUint (String "0" (String "x" t))) as [un o] eqn:E.
  apply ParseUint_result in E.
  destruct o as [e|].
  - destruct E as [->|[-> ->]]; [discriminate|].
    change (2 ^ 63 <=? Go.maxUint64) with true. discriminate.
  - destruct (Z.leb_spec (2 ^ 63) un); [discriminate|]. intros [= <-]. done.
Qed.

(** [ParseInt] on a port of hexadecimal digits, whatever its size. *)
Lemma ParseInt_hex_overflow (port : string) :
  port <> "" -> allHex port = true -> 2 ^ 63 <= hexValue port ->
  Go.ParseInt ("0x" +:+ port) = (2 ^ 63 - 1, Some ErrRange).
Proof.
  intros Hne Hhex Hbig. destruct port as [|c r]; [done|].
  assert (Hlen : (3 <=? Go.len ("0x" +:+ String c r)) = true).
  { apply Z.leb_le. unfold Go.len. simpl String.length. lia. }
  unfold Go.ParseInt, Go.ParseUint.
  change ("0x" +:+ String c r) with (String "0" (String "x" (String c r))) in *.
  prefix_tests. rewrite Hlen. prefix_tests.
  destruct (Z.lt_ge_cases (hexValue (String c r)) (2 ^ 64)) as [Hlt|Hge].
  - rewrite (parseDigits_hex (String c r) 0 false Hhex) by (done || lia).
    fold (hexValue (String c r)). prefix_tests.
    destruct (Z.leb_spec (2 ^ 63) (hexValue (String c r))); [done|lia].
  - rewrite (parseDigits_hex_overflow (String c r) 0 false Hhex) by (done || lia).
    prefix_tests. done.
Qed.

(** X1.  Whether [decodeAddress] fails, and with which error, does not
    depend on the family; and a failure comes with the empty string. *)
Theorem decodeAddress_error_family_independent (family family' src : string) :
  (decodeAddress family src).2 = (decodeAddress family' src).2 /\
  ((decodeAddress family src).2 <> None -> (decodeAddress family src).1 = "").
Proof.
  unfold decodeAddress.
  destruct (negb (length (Go.Split src ":") =? 2)%nat); [done|].
  destruct (Go.ParseInt _) as [p [e|]]; [done|].
  destruct (Go.DecodeString _) as [bs [e|]]; [done|].
  cbn [snd]. done.
Qed.

(** X2.  The port is read before the address.  A field with one colon whose
    port is empty, or is written in hexadecimal digits and is 2^63 or more,
    fails with [invalid port], whatever the address is. *)
Theorem decodeAddress_invalid_port (family addr port : string) :
  colons addr = 0%nat ->
  port = "" \/ (allHex port = true /\ 2 ^ 63 <= hexValue port) ->
  decodeAddress family (addr +:+ ":" +:+ port) =
    ("", Some (Errorf "invalid port %q" (addr +:+ ":" +:+ port))).
Proof.
  intros Ha [->|[Hhex Hbig]].
  - by rewrite decodeAddress_field.
  - assert (Hne : port <> "") by (intros ->; vm_compute in Hbig; by apply Hbig).
    rewrite decodeAddress_field by (done || by apply allHex_countByte_colon).
    by rewrite (ParseInt_hex_overflow port Hne Hhex Hbig).
Qed.

Lemma decodeAddress_invalid_port_witness :
  decodeAddress "inet" ("0100007F" +:+ ":" +:+ "8000000000000000") =
    ("", Some (Errorf "invalid port %q" "0100007F:8000000000000000")) /\
  decodeAddress "inet" ("not hex" +:+ ":" +:+ "") =
    ("", Some (Errorf "invalid port %q" "not hex:")).
Proof.
  split.
  - apply (decodeAddress_invalid_port "inet" "0100007F" "8000000000000000");
      [reflexivity|]. right. split; [reflexivity|]. vm_compute. discriminate.
  - apply (decodeAddress_invalid_port "inet" "not hex" ""); [reflexivity|].
    by left.
Defined.

(** X3.  A field that decodes is the printed address, a colon and a port in
    decimal, where the port lies between 0 and 2^63 and the address is
    [<nil>] for every family but [inet].  No bound of 16 bits is put on the
    port. *)
Theorem decodeAddress_success_shape (family src out : string) :
  decodeAddress family src = (out, None) ->
  exists addr port bytes p,
    Go.Split src ":" = [addr; port] /\
    Go.DecodeString addr = (bytes, None) /\
    Go.ParseInt ("0x" +:+ port) = (p, None) /\
    0 <= p < 2 ^ 63 /\
    out = Go.IP_String (if String.eqb family "inet" then rev bytes else [])
            +:+ ":" +:+ Go.Itoa p /\
    (family <> "inet" -> out = "<nil>:" +:+ Go.Itoa p).
Proof.
  unfold decodeAddress.
  destruct (Go.Split src ":") as [|addr [|port [|? ?]]] eqn:Es; cbn [length Nat.eqb negb];
    try discriminate.
  cbn [nth].
  destruct (Go.ParseInt _) as [p [e|]] eqn:Ep; [discriminate|].
  destruct (Go.DecodeString _) as [bs [e|]] eqn:Ed; [discriminate|].
  rewrite reverse_rev. intros [= <-].
  exists addr, port, bs, p. repeat split; try done.
  - by apply (ParseInt_0x_range port).
  - by apply (ParseInt_0x_range port).
  - intros Hf. apply String.eqb_neq in Hf. by rewrite Hf.
Qed.

Lemma decodeAddress_success_shape_witness :
  exists addr port bytes p,
    Go.Split "0100007F:FFFFF" ":" = [addr; port] /\
    Go.DecodeString addr = (bytes, None) /\
    Go.ParseInt ("0x" +:+ port) = (p, None) /\
    0 <= p < 2 ^ 63 /\
    "127.0.0.1:1048575" =
      Go.IP_String (if String.eqb "inet" "inet" then rev bytes else [])
        +:+ ":" +:+ Go.Itoa p /\
    ("inet" <> "inet" -> "127.0.0.1:1048575" = "<nil>:" +:+ Go.Itoa p).
Proof.
  apply (decodeAddress_success_shape "inet" "0100007F:FFFFF" "127.0.0.1:1048575").
  reflexivity.
Defined.

(** ** processINET: where the connections come from *)

Lemma processLine_decoded (kind : netConnectionKindType) (line : string) (c : Connection) :
  c ∈ processLine kind [] line ->
  decodeAddress (family kind) (nth 1 (Go.Fields line) "") = (LocalAddress c, None) /\
  decodeAddress (family kind) (nth 2 (Go.Fields line) "") = (RemoteAddess c, None).
Proof.
  unfold processLine.
  destruct (length (Go.Fields line) <? 10)%nat; [by intros ?%elem_of_nil|].
  destruct (decodeAddress _ (nth 1 _ _)) as [la [e|]]; [by intros ?%elem_of_nil|].
  destruct (decodeAddress _ (nth 2 _ _)) as [ra [e|]]; [by intros ?%elem_of_nil|].
  cbn [app]. intros ->%list_elem_of_singleton. done.
Qed.

Lemma processLine_undecodable (kind : netConnectionKindType) (out : list Connection)
    (line : string) :
  ~ decodableRow kind line -> processLine kind out line = out.
Proof.
  unfold decodableRow, processLine. intros H.
  destruct (length (Go.Fields line) <? 10)%nat; [done|].
  destruct (decodeAddress _ (nth 1 _ _)) as [la [e|]]; [done|].
  destruct (decodeAddress _ (nth 2 _ _)) as [ra [e|]]; [done|].
  destruct H. done.
Qed.

Lemma processLine_at_most_one (kind : netConnectionKindType) (line : string) :
  (length (processLine kind [] line) <= 1)%nat.
Proof.
  unfold processLine.
  destruct (length (Go.Fields line) <? 10)%nat; [cbn; lia|].
  destruct (decodeAddress _ (nth 1 _ _)) as [la [e|]]; [cbn; lia|].
  destruct (decodeAddress _ (nth 2 _ _)) as [ra [e|]]; cbn; lia.
Qed.

Lemma flat_map_at_most_one {A B : Type} (f : A -> list B) (l : list A) :
  (forall x, (length (f x) <= 1)%nat) -> (length (flat_map f l) <= length l)%nat.
Proof.
  intros Hf. induction l as [|x l IH]; cbn [flat_map length]; [lia|].
  rewrite length_app. specialize (Hf x). lia.
Qed.

(** X4.  Every connection [processINET] returns carries the family and the
    socket type of the kind, and its two addresses are what [decodeAddress]
    gives, without error, for fields 1 and 2 of one line of the file after
    the first. *)
Theorem processINET_provenance (ReadFile : FileSystem) (filename : string)
    (kind : netConnectionKindType) (c : Connection) :
  c ∈ (processINET ReadFile filename kind).1 ->
  Family c = family kind /\ Type_ c = sockType kind /\
  exists line,
    line ∈ drop 1 (Go.Split (ReadFile filename).1 newline) /\
    decodeAddress (family kind) (nth 1 (Go.Fields line) "") = (LocalAddress c, None) /\
    decodeAddress (family kind) (nth 2 (Go.Fields line) "") = (RemoteAddess c, None).
Proof.
  unfold processINET.
  destruct (ReadFile filename) as [contents [e|]]; cbn [fst snd].
  { by intros ?%elem_of_nil. }
  rewrite processLines_flat_map. cbn [app].
  intros (line & Hline & Hc)%list_elem_of_In%in_flat_map.
  apply list_elem_of_In in Hline, Hc.
  destruct (processLine_row kind line c Hc) as (_ & Hf & Ht & _).
  destruct (processLine_decoded kind line c Hc) as (Hl & Hr).
  split; [done|]. split; [done|]. by exists line.
Qed.

Lemma processINET_provenance_witness :
  Family exampleListen = family tcpKind /\ Type_ exampleListen = sockType tcpKind /\
  exists line,
    line ∈ drop 1 (Go.Split (exampleFS "/proc/7/tcp").1 newline) /\
    decodeAddress (family tcpKind) (nth 1 (Go.Fields line) "")
      = (LocalAddress exampleListen, None) /\
    decodeAddress (family tcpKind) (nth 2 (Go.Fields line) "")
      = (RemoteAddess exampleListen, None).
Proof.
  apply (processINET_provenance exampleFS "/proc/7/tcp" tcpKind exampleListen).
  vm_compute. left.
Defined.

(** X5.  The connections are those of the lines after the first, line by
    line and in the order of the file; a line gives one connection at most,
    so there are no more connections than newlines in the file. *)
Theorem processINET_line_by_line (ReadFile : FileSystem) (filename : string)
    (kind : netConnectionKindType) :
  let contents := (ReadFile filename).1 in
  let out := (processINET ReadFile filename kind).1 in
  ((ReadFile filename).2 = None ->
   out = flat_map (processLine kind []) (drop 1 (Go.Split contents newline))) /\
  (forall line, (length (processLine kind [] line) <= 1)%nat) /\
  (length out <= countByte newline contents)%nat.
Proof.
  intros contents out. subst contents out. unfold processINET.
  destruct (ReadFile filename) as [contents [e|]]; cbn [fst snd].
  - split; [done|]. split; [apply processLine_at_most_one|]. cbn. lia.
  - rewrite processLines_flat_map. cbn [app].
    split; [done|]. split; [apply processLine_at_most_one|].
    etrans; [apply flat_map_at_most_one, processLine_at_most_one|].
    rewrite length_drop, Split_length. lia.
Qed.

(** X6.  A row with ten fields or more whose local or remote address does
    not decode is passed over without an error: the output is the one of the
    table without these rows. *)
Theorem processINET_undecodable_rows (ReadFile : FileSystem)
    (filename contents : string) (kind : netConnectionKindType) :
  ReadFile filename = (contents, None) ->
  processINET ReadFile filename kind =
    (fold_left (processLine kind)
       (filter (decodableRow kind) (drop 1 (Go.Split contents newline))) [], None).
Proof.
  intros Hread. rewrite (processINET_readable _ _ _ _ Hread). f_equal.
  rewrite !processLines_flat_map. f_equal.
  induction (drop 1 (Go.Split contents newline)) as [|line lines IH]; [done|].
  rewrite filter_cons.
  destruct (decide (decodableRow kind line)) as [Hd|Hd]; cbn [flat_map].
  - by rewrite IH.
  - by rewrite <- IH, (processLine_undecodable kind [] line Hd).
Qed.

Lemma processINET_undecodable_rows_witness :
  processINET exampleFS2 "b" tcpKind =
    (fold_left (processLine tcpKind)
       (filter (decodableRow tcpKind)
          (drop 1 (Go.Split (exampleFS2 "b").1 newline))) [], None).
Proof.
  apply (processINET_undecodable_rows exampleFS2 "b"). reflexivity.
Defined.

(** ** processINET: tables side by side *)

Lemma Split_append (a b : string) (sep : ascii) :
  Go.Split (a +:+ String sep b) sep = Go.Split a sep ++ Go.Split b sep.
Proof.
  induction a as [|c r IH]; simpl.
  - by rewrite Ascii.eqb_refl.
  - destruct (Ascii.eqb c sep); [by rewrite IH|].
    rewrite IH. pose proof (Split_nonempty r sep).
    by destruct (Go.Split r sep).
Qed.

(** X7.  Tables compose: the connections of a table whose rows are the
    rows of one table followed by the rows of another are the connections
    of the first followed by those of the second, whatever the three header
    lines are. *)
Theorem processINET_rows_append (ReadFile : FileSystem) (kind : netConnectionKindType)
    (f1 f2 f12 h1 h2 h12 rows1 rows2 : string) :
  countByte newline h1 = 0%nat -> countByte newline h2 = 0%nat ->
  countByte newline h12 = 0%nat ->
  ReadFile f1 = (h1 +:+ String newline rows1, None) ->
  ReadFile f2 = (h2 +:+ String newline rows2, None) ->
  ReadFile f12 = (h12 +:+ String newline (rows1 +:+ String newline rows2), None) ->
  processINET ReadFile f12 kind =
    ((processINET ReadFile f1 kind).1 ++ (processINET ReadFile f2 kind).1, None).
Proof.
  intros H1 H2 H12 R1 R2 R12.
  rewrite (processINET_readable _ _ _ _ R1), (processINET_readable _ _ _ _ R2),
    (processINET_readable _ _ _ _ R12).
  rewrite !Split_header by done. cbn [fst].
  rewrite Split_append, !processLines_flat_map. cbn [app].
  by rewrite flat_map_app.
Qed.

Lemma processINET_rows_append_witness :
  processINET exampleFS2 "ab" tcpKind =
    ((processINET exampleFS2 "a" tcpKind).1 ++ (processINET exampleFS2 "b" tcpKind).1,
     None).
Proof.
  apply (processINET_rows_append exampleFS2 tcpKind "a" "b" "ab"
           exampleHeader "header" "" exampleRow
           (exampleBadRow +:+ String newline exampleRow2));
    reflexivity.
Defined.

(** ** GetConnections: the files it reads *)

Lemma processINET_ext (fs1 fs2 : FileSystem) (path : string) (k : netConnectionKindType) :
  fs1 path = fs2 path -> processINET fs1 path k = processINET fs2 path k.
Proof. intros H. unfold processINET. by rewrite H. Qed.

Lemma GetConnections_run (ReadFile : FileSystem) (root : string) (pid : Z) :
  GetConnections ReadFile root pid =
  let root' := if String.eqb root "" then "/proc" else root in
  let results := kindResults ReadFile root' pid connectionKindTypes in
  (flat_map parsed results, NilOrError (omap snd results)).
Proof.
  unfold GetConnections.
  by rewrite (getConnections_loop ReadFile _ pid connectionKindTypes [] []).
Qed.

(** X8.  [GetConnections] reads the table of each kind under the root for
    the process and no other file: two file systems that agree on these two
    paths give the same connections and the same error. *)
Theorem GetConnections_reads_only_its_tables (fs1 fs2 : FileSystem)
    (root : string) (pid : Z) :
  let root' := if String.eqb root "" then "/proc" else root in
  (forall k, k ∈ connectionKindTypes ->
             fs1 (tablePath root' pid k) = fs2 (tablePath root' pid k)) ->
  GetConnections fs1 root pid = GetConnections fs2 root pid.
Proof.
  intros root' Hagree. rewrite !GetConnections_run. fold root'. cbv zeta.
  replace (kindResults fs2 root' pid connectionKindTypes)
    with (kindResults fs1 root' pid connectionKindTypes); [done|].
  unfold kindResults. apply Forall_fmap_ext_1, Forall_forall.
  intros k Hk. apply processINET_ext. by apply Hagree.
Qed.

Lemma GetConnections_reads_only_its_tables_witness :
  GetConnections exampleFS "" 7 = GetConnections exampleFS3 "" 7.
Proof.
  apply (GetConnections_reads_only_its_tables exampleFS exampleFS3 "" 7).
  intros k Hk. apply list_elem_of_In in Hk.
  destruct Hk as [<-|[<-|[]]]; reflexivity.
Defined.

(** The decimal writing of an integer: no slash, and a first character
    that is no dot. *)
Lemma uint_string_no_slash (d : Decimal.uint) :
  countByte "/" (NilEmpty.string_of_uint d) = 0%nat.
Proof. induction d; simpl; done. Qed.

Lemma Itoa_plain (n : Z) :
  countByte "/" (Go.Itoa n) = 0%nat /\
  exists c r, Go.Itoa n = String c r /\ c <> "."%char.
Proof.
  assert (Hu : forall d,
             countByte "/" (NilZero.string_of_uint d) = 0%nat /\
             exists c r, NilZero.string_of_uint d = String c r /\ c <> "."%char).
  { intros d. split.
    - destruct d; try apply (uint_string_no_slash (_ d)); done.
    - destruct d; simpl; eauto. }
  unfold Go.Itoa. destruct n as [|p|p]; cbn [Z.to_int NilZero.string_of_int].
  - apply Hu.
  - apply Hu.
  - destruct (Hu (Pos.to_uint p)) as [Hs _]. split.
    + simpl. exact Hs.
    + eauto.
Qed.

Lemma Split_three (a b c : string) :
  countByte "/" a = 0%nat -> countByte "/" b = 0%nat -> countByte "/" c = 0%nat ->
  Go.Split (a +:+ String "/" (b +:+ String "/" c)) "/" = [a; b; c].
Proof.
  intros Ha Hb Hc.
  by rewrite !Split_append, (Split_no_sep a), (Split_no_sep b), (Split_no_sep c).
Qed.

(** The path of a table under [/proc]. *)
Lemma tablePath_proc (pid : Z) (k : netConnectionKindType) :
  k ∈ connectionKindTypes ->
  tablePath "/proc" pid k = "/proc/" +:+ Go.Itoa pid +:+ "/" +:+ filename k.
Proof.
  intros Hk. destruct (Itoa_plain pid) as [Hslash (c & r & Hs & Hc)].
  assert (Hname : filename k = "tcp" \/ filename k = "udp").
  { apply list_elem_of_In in Hk. destruct Hk as [<-|[<-|[]]]; auto. }
  unfold tablePath, Go.filepath_Join. change (String.eqb "/proc" "") with false.
  cbv iota. cbn [Go.Join].
  change ("/proc" +:+ "/" +:+ Go.Itoa pid +:+ "/" +:+ filename k)
    with (String "/" ("proc" +:+ String "/" (Go.Itoa pid +:+ String "/" (filename k)))).
  unfold Go.Clean. change (Ascii.eqb "/" "/") with true. cbv iota zeta.
  change (String "/" ("proc" +:+ String "/" (Go.Itoa pid +:+ String "/" (filename k))))
    with ("" +:+ String "/" ("proc" +:+ String "/" (Go.Itoa pid +:+ String "/" (filename k)))).
  rewrite Split_append.
  rewrite Split_three by (done || by destruct Hname as [->| ->]).
  assert (Hstep : forall out, Go.cleanStep true out (Go.Itoa pid) = Go.Itoa pid :: out).
  { intros out. unfold Go.cleanStep. rewrite Hs.
    destruct r as [|c' r']; cbn [String.eqb orb];
      destruct (Ascii.eqb_spec c "."); try done. }
  cbn [Go.Split app fold_left]. 
  change (Go.cleanStep true [] "") with (@nil string).
  change (Go.cleanStep true [] "proc") with ["proc"].
  rewrite Hstep.
  destruct Hname as [-> | ->]; reflexivity.
Qed.

(** X9.  With no root given, [GetConnections] works under [/proc]: it
    reads [/proc/<pid>/tcp] and [/proc/<pid>/udp], the process id written
    in decimal, and depends on nothing else of the file system. *)
Theorem GetConnections_default_root (fs1 fs2 : FileSystem) (pid : Z) :
  fs1 ("/proc/" +:+ Go.Itoa pid +:+ "/tcp") = fs2 ("/proc/" +:+ Go.Itoa pid +:+ "/tcp") ->
  fs1 ("/proc/" +:+ Go.Itoa pid +:+ "/udp") = fs2 ("/proc/" +:+ Go.Itoa pid +:+ "/udp") ->
  GetConnections fs1 "" pid = GetConnections fs1 "/proc" pid /\
  GetConnections fs1 "" pid = GetConnections fs2 "" pid /\
  (GetConnections fs1 "" pid).1 =
    parsed (processINET fs1 ("/proc/" +:+ Go.Itoa pid +:+ "/tcp") tcpKind) ++
    parsed (processINET fs1 ("/proc/" +:+ Go.Itoa pid +:+ "/udp") udpKind).
Proof.
  intros Htcp Hudp.
  assert (Pt : tablePath "/proc" pid tcpKind = "/proc/" +:+ Go.Itoa pid +:+ "/tcp").
  { apply (tablePath_proc pid tcpKind). left. }
  assert (Pu : tablePath "/proc" pid udpKind = "/proc/" +:+ Go.Itoa pid +:+ "/udp").
  { apply (tablePath_proc pid udpKind). right. left. }
  split; [done|]. split.
  - rewrite !GetConnections_run. cbv zeta.
    change (String.eqb "" "") with true. cbv iota.
    unfold kindResults, connectionKindTypes. cbn [fmap list_fmap].
    fold tcpKind udpKind.
    fold (tablePath "/proc" pid tcpKind) (tablePath "/proc" pid udpKind).
    rewrite Pt, Pu.
    by rewrite (processINET_ext fs1 fs2 _ tcpKind Htcp),
      (processINET_ext fs1 fs2 _ udpKind Hudp).
  - rewrite GetConnections_run. cbv zeta.
    change (String.eqb "" "") with true. cbv iota.
    unfold kindResults, connectionKindTypes. cbn [fmap list_fmap fst flat_map].
    fold tcpKind udpKind.
    fold (tablePath "/proc" pid tcpKind) (tablePath "/proc" pid udpKind).
    rewrite Pt, Pu. by rewrite app_nil_r.
Qed.

Lemma GetConnections_default_root_witness :
  GetConnections exampleFS "" 7 = GetConnections exampleFS "/proc" 7 /\
  GetConnections exampleFS "" 7 = GetConnections exampleFS3 "" 7 /\
  (GetConnections exampleFS "" 7).1 =
    parsed (processINET exampleFS ("/proc/" +:+ Go.Itoa 7 +:+ "/tcp") tcpKind) ++
    parsed (processINET exampleFS ("/proc/" +:+ Go.Itoa 7 +:+ "/udp") udpKind).
Proof.
  apply (GetConnections_default_root exampleFS exampleFS3 7); reflexivity.
Defined.

(** ** GetConnections: what it returns *)

Lemma processINET_elem (ReadFile : FileSystem) (path : string)
    (k : netConnectionKindType) (c : Connection) :
  c ∈ (processINET ReadFile path k).1 ->
  exists line, c ∈ processLine k [] line.
Proof.
  unfold processINET. destruct (ReadFile path) as [contents [e|]]; cbn [fst].
  { by intros ?%elem_of_nil. }
  rewrite processLines_flat_map. cbn [app].
  intros (line & _ & Hc)%list_elem_of_In%in_flat_map.
  apply list_elem_of_In in Hc. by exists line.
Qed.

Lemma parsed_elem (r : list Connection * option error) (c : Connection) :
  c ∈ parsed r -> c ∈ r.1.
Proof. unfold parsed. destruct (r.2); [by intros ?%elem_of_nil|done]. Qed.

(** X10.  The connections of [GetConnections] are those of the TCP table
    followed by those of the UDP table.  All have the family [inet]; a TCP
    connection has a status that is not empty and a UDP connection the
    status [NONE]. *)
Theorem GetConnections_output (ReadFile : FileSystem) (root : string) (pid : Z) :
  exists tcps udps,
    (GetConnections ReadFile root pid).1 = tcps ++ udps /\
    Forall (fun c => Family c = "inet" /\ Type_ c = "tcp" /\ Status c <> "") tcps /\
    Forall (fun c => Family c = "inet" /\ Type_ c = "udp" /\ Status c = "NONE") udps.
Proof.
  rewrite GetConnections_run. cbv zeta.
  set (root' := if String.eqb root "" then "/proc" else root).
  unfold kindResults, connectionKindTypes. cbn [fmap list_fmap fst flat_map].
  fold tcpKind udpKind. rewrite app_nil_r.
  eexists _, _. split; [done|]. split; apply Forall_forall; intros c Hc.
  - apply parsed_elem, processINET_elem in Hc as [line Hc].
    destruct (processLine_row tcpKind line c Hc) as (_ & Hf & Ht & Hs).
    split; [done|]. split; [done|]. rewrite Hs. apply rowStatus_nonempty.
  - apply parsed_elem, processINET_elem in Hc as [line Hc].
    destruct (processLine_row udpKind line c Hc) as (_ & Hf & Ht & Hs).
    split; [done|]. split; [done|]. by rewrite Hs.
Qed.

Lemma readFailures_nil (ReadFile : FileSystem) (path : netConnectionKindType -> string)
    (kinds : list netConnectionKindType) :
  omap (fun k => readFailure ReadFile (path k)) kinds = [] <->
  forall k, k ∈ kinds -> (ReadFile (path k)).2 = None.
Proof.
  induction kinds as [|k kinds IH]; cbn [omap list_omap].
  - split; [by intros _ ? ?%elem_of_nil|done].
  - unfold readFailure at 1. destruct ((ReadFile (path k)).2) as [e|] eqn:E.
    + split; [done|]. intros H. specialize (H k ltac:(left)). congruence.
    + rewrite IH. split.
      * intros H k' [->|Hk']%elem_of_cons; [done|by apply H].
      * intros H k' Hk'. apply H. by right.
Qed.

Lemma processINET_error_is_readFailure (ReadFile : FileSystem) (path : string)
    (k : netConnectionKindType) :
  (processINET ReadFile path k).2 = readFailure ReadFile path.
Proof.
  unfold processINET, readFailure. by destruct (ReadFile path) as [contents [e|]].
Qed.

Lemma kindResults_failures (ReadFile : FileSystem) (root : string) (pid : Z)
    (kinds : list netConnectionKindType) :
  omap snd (kindResults ReadFile root pid kinds) =
  omap (fun k => readFailure ReadFile (tablePath root pid k)) kinds.
Proof.
  induction kinds as [|k kinds IH]; [done|].
  unfold kindResults in *. cbn [fmap list_fmap omap list_omap].
  rewrite IH. fold (tablePath root pid k).
  by rewrite processINET_error_is_readFailure.
Qed.

(** X11.  [GetConnections] returns an error exactly when a table cannot be
    read.  The error is then the aggregate that holds, for each kind whose
    table cannot be read and in the order of the kinds, the error of the
    read wrapped with the path of the table; the connections of the tables
    that can be read are returned beside it. *)
Theorem GetConnections_errors (ReadFile : FileSystem) (root : string) (pid : Z) :
  let root' := if String.eqb root "" then "/proc" else root in
  let failures :=
    omap (fun k => readFailure ReadFile (tablePath root' pid k)) connectionKindTypes in
  ((GetConnections ReadFile root pid).2 = None <->
   forall k, k ∈ connectionKindTypes -> (ReadFile (tablePath root' pid k)).2 = None) /\
  (GetConnections ReadFile root pid).2 =
    match failures with
    | [] => None
    | _ => Some (MultiError failures)
    end /\
  (forall k c, k ∈ connectionKindTypes ->
     (ReadFile (tablePath root' pid k)).2 = None ->
     c ∈ (processINET ReadFile (tablePath root' pid k) k).1 ->
     c ∈ (GetConnections ReadFile root pid).1).
Proof.
  intros root' failures.
  rewrite GetConnections_run. fold root'. cbv zeta. cbn [fst snd].
  rewrite kindResults_failures. fold failures. split; [|split].
  - rewrite <- (readFailures_nil ReadFile (tablePath root' pid)). fold failures.
    by destruct failures.
  - by destruct failures.
  - intros k c Hk Hread Hc. apply list_elem_of_In, in_flat_map.
    exists (processINET ReadFile (tablePath root' pid k) k). split.
    + apply list_elem_of_In. unfold kindResults.
      apply (list_elem_of_fmap_2
               (fun k => processINET ReadFile (tablePath root' pid k) k) _ _ Hk).
    + apply list_elem_of_In. unfold parsed.
      rewrite processINET_error_is_readFailure.
      unfold readFailure. by rewrite Hread.
Qed.

Lemma GetConnections_errors_witness :
  exampleListen ∈ (GetConnections exampleFS "" 7).1 /\
  (GetConnections exampleFS "" 7).2 <> None.
Proof.
  assert (Ht : tcpKind ∈ connectionKindTypes) by left.
  assert (Hu : udpKind ∈ connectionKindTypes) by (right; left).
  destruct (GetConnections_errors exampleFS "" 7) as (Hiff & _ & Hin). split.
  - refine (Hin tcpKind exampleListen Ht eq_refl _). vm_compute. left.
  - intros Hnone. pose proof (proj1 Hiff Hnone udpKind Hu) as Hudp.
    discriminate Hudp.
Defined.

(** ** GetPids: errors and the id it asks for *)

Lemma HasPrefix_app (prefix rest : string) : Go.HasPrefix (prefix +:+ rest) prefix = true.
Proof.
  induction prefix as [|p prefix IH]; [by destruct rest|].
  change (Ascii.eqb p p && Go.HasPrefix (prefix +:+ rest) prefix = true).
  by rewrite Ascii.eqb_refl, IH.
Qed.

Lemma dropBytes_app (prefix rest : string) :
  Go.dropBytes (String.length prefix) (prefix +:+ rest) = rest.
Proof. induction prefix as [|p prefix IH]; [by destruct rest|done]. Qed.

Lemma TrimPrefix_app (prefix rest : string) :
  Go.TrimPrefix (prefix +:+ rest) prefix = rest.
Proof. unfold Go.TrimPrefix. by rewrite HasPrefix_app, dropBytes_app. Qed.

(** X12.  [GetPids] fails exactly when the id does not start with
    [docker://] or the runtime cannot inspect the container; a container
    that is inspected and has no state gives no process id and no error.
    An error never comes with process ids, and at most one process id is
    returned: the one of the state of the container. *)
Theorem GetPids_errors (ContainerInspect : string -> ContainerJSON * option error)
    (id : string) :
  let asked := Go.TrimPrefix id mobyPrefix in
  ((GetPids ContainerInspect id).2 <> None <->
   Go.HasPrefix id mobyPrefix = false \/ (ContainerInspect asked).2 <> None) /\
  (Go.HasPrefix id mobyPrefix = true -> (ContainerInspect asked).2 = None ->
   State (ContainerInspect asked).1 = None ->
   GetPids ContainerInspect id = ([], None)) /\
  ((GetPids ContainerInspect id).2 <> None -> (GetPids ContainerInspect id).1 = []) /\
  (length (GetPids ContainerInspect id).1 <= 1)%nat /\
  (forall pid, pid ∈ (GetPids ContainerInspect id).1 ->
     exists state, State (ContainerInspect asked).1 = Some state /\ Pid state = pid).
Proof.
  intros asked. subst asked. unfold GetPids.
  destruct (Go.HasPrefix id mobyPrefix); cbn [negb].
  - destruct (ContainerInspect _) as [info [e|]]; cbn [fst snd].
    + split; [split; [by right|done]|]. split; [done|]. split; [done|].
      split; [cbn; lia|]. by intros ? ?%elem_of_nil.
    + destruct (State info) as [state|]; cbn [errors_Wrap].
      * destruct (0 <=? Pid state); cbn [fst snd length].
        -- split; [split; [done|by intros [|]]|]. split; [done|]. split; [done|].
           split; [lia|]. by intros ? ?%elem_of_nil.
        -- split; [split; [done|by intros [|]]|]. split; [done|]. split; [done|].
           split; [lia|]. intros pid ->%list_elem_of_singleton. by exists state.
      * cbn [fst snd length].
        split; [split; [done|by intros [|]]|]. split; [done|]. split; [done|].
        split; [lia|]. by intros ? ?%elem_of_nil.
  - cbn [fst snd length].
    split; [split; [by left|done]|]. split; [done|]. split; [done|].
    split; [lia|]. by intros ? ?%elem_of_nil.
Qed.

Lemma GetPids_errors_witness :
  GetPids (exampleInspect 4242) "docker://nothing" = ([], Some (Wrap (ErrOS "no such container") "ContainerInspect failed")) /\
  (GetPids (exampleInspect 4242) "docker://nothing").2 <> None.
Proof.
  split; [reflexivity|].
  apply (proj1 (GetPids_errors (exampleInspect 4242) "docker://nothing")).
  right. discriminate.
Defined.

(** X13.  For an id [docker://<rest>] the runtime is asked about [<rest>]
    and about no other id: the prefix is taken off once, and two runtimes
    that answer alike for [<rest>] give the same result. *)
Theorem GetPids_asks_trimmed_id
    (inspect1 inspect2 : string -> ContainerJSON * option error) (rest : string) :
  inspect1 rest = inspect2 rest ->
  GetPids inspect1 (mobyPrefix +:+ rest) = GetPids inspect2 (mobyPrefix +:+ rest) /\
  (GetPids inspect1 (mobyPrefix +:+ rest)).2 = errors_Wrap (inspect1 rest).2
                                                "ContainerInspect failed".
Proof.
  intros H. unfold GetPids.
  rewrite HasPrefix_app, TrimPrefix_app, <- H. cbn [negb]. split; [done|].
  destruct (inspect1 rest) as [info [e|]]; [done|].
  destruct (State info) as [state|]; [|done]. by destruct (0 <=? Pid state).
Qed.

Lemma GetPids_asks_trimmed_id_witness :
  GetPids (exampleInspect 4242) (mobyPrefix +:+ "docker://abc") =
    GetPids (fun _ => ({| State := None |}, Some (ErrOS "no such container")))
      (mobyPrefix +:+ "docker://abc") /\
  (GetPids (exampleInspect 4242) (mobyPrefix +:+ "docker://abc")).2 =
    errors_Wrap (exampleInspect 4242 "docker://abc").2 "ContainerInspect failed".
Proof.
  apply (GetPids_asks_trimmed_id (exampleInspect 4242)
           (fun _ => ({| State := None |}, Some (ErrOS "no such container")))
           "docker://abc").
  reflexivity.
Defined.

(** ** Monitor.Collect: the pods and containers it looks at *)

Lemma runningPods_from (in_ out : list v1.Pod) :
  fold_left
    (fun out p =>
       if String.eqb (v1.Phase (v1.Status p)) v1.PodRunning ||
          String.eqb (v1.Phase (v1.Status p)) v1.PodPending
       then out ++ [p] else out) in_ out
  = out ++ filter eligible in_.
Proof.
  revert out. induction in_ as [|p in_ IH]; intros out; cbn [fold_left].
  - by rewrite app_nil_r.
  - rewrite IH, filter_cons. unfold eligible at 2.
    destruct (String.eqb_spec (v1.Phase (v1.Status p)) v1.PodRunning) as [E1|E1];
      destruct (String.eqb_spec (v1.Phase (v1.Status p)) v1.PodPending) as [E2|E2];
      cbn [orb];
      destruct (decide _) as [D|D]; try (by rewrite <- app_assoc); try done;
      exfalso; tauto.
Qed.

(** X14.  [runningPods] keeps the pods whose phase is Running or Pending,
    in their order, and no other; applied twice it gives what it gives
    applied once. *)
Theorem runningPods_filter (in_ : list v1.Pod) :
  runningPods in_ = filter eligible in_ /\
  runningPods (runningPods in_) = runningPods in_ /\
  (forall p, p ∈ runningPods in_ <-> p ∈ in_ /\ eligible p).
Proof.
  assert (H : forall l, runningPods l = filter eligible l).
  { intros l. unfold runningPods. by rewrite runningPods_from. }
  split; [apply H|]. split.
  - rewrite !H. apply list_filter_filter_l. done.
  - intros p. rewrite H, list_elem_of_filter. tauto.
Qed.

Lemma isContainerRunning_reports (c : v1.ContainerStatus) :
  (isContainerRunning c && negb (String.eqb (v1.ContainerID c) "") = true) <-> reportsID c.
Proof.
  unfold isContainerRunning, reportsID.
  destruct (v1.Running (v1.State c));
    destruct (String.eqb_spec (v1.ContainerID c) ""); cbn; split;
    try done; try (by intros []); intros [? ?]; done.
Qed.

Lemma noteContainer_spec (out : gmap string string) (c : v1.ContainerStatus) :
  (reportsID c /\ noteContainer out c = <[v1.Name c := v1.ContainerID c]> out) \/
  (~ reportsID c /\ noteContainer out c = out).
Proof.
  pose proof (isContainerRunning_reports c) as H. unfold noteContainer.
  destruct (isContainerRunning c); cbn [andb] in H.
  - destruct (negb _); [left|right]; split; try done; try by apply H.
    intros ?%H. done.
  - right. split; [|done]. intros ?%H. done.
Qed.

Lemma noteContainers_lookup (l : list v1.ContainerStatus) (out : gmap string string)
    (name id : string) :
  fold_left noteContainer l out !! name = Some id ->
  out !! name = Some id \/
  exists c, c ∈ l /\ reportsID c /\ v1.Name c = name /\ v1.ContainerID c = id.
Proof.
  revert out. induction l as [|c l IH]; intros out; cbn [fold_left]; [by left|].
  intros [H|(c' & Hin & H)]%IH.
  - destruct (noteContainer_spec out c) as [[Hr Hc]|[_ Hc]];
      rewrite Hc in H; [|by left].
    destruct (decide (v1.Name c = name)) as [E|E].
    + rewrite <- E, lookup_insert_eq in H. injection H as <-.
      right. exists c. split; [left|done].
    + rewrite lookup_insert_ne in H by done. by left.
  - right. exists c'. split; [by right|done].
Qed.

Lemma noteContainers_keep (l : list v1.ContainerStatus) (out : gmap string string)
    (name : string) :
  (forall c, c ∈ l -> reportsID c -> v1.Name c <> name) ->
  fold_left noteContainer l out !! name = out !! name.
Proof.
  revert out. induction l as [|c l IH]; intros out Hl; [done|].
  cbn [fold_left]. rewrite IH by (intros c' Hc'; apply Hl; by right).
  destruct (noteContainer_spec out c) as [[Hr ->]|[_ ->]]; [|done].
  apply lookup_insert_ne. apply Hl; [left|done].
Qed.

(** X15.  [runningContainerIDs] maps the name of each container that runs
    and has an id to that id.  An entry of the map comes from such a
    container; every such container has its name in the map; when several
    carry one name the last of the list gives the id; and a pod with no
    such container gives the empty map. *)
Theorem runningContainerIDs_entries (in_ : v1.PodStatus) :
  let ids := runningContainerIDs in_ in
  (forall name id, ids !! name = Some id ->
     id <> "" /\
     exists c, c ∈ v1.ContainerStatuses in_ /\ reportsID c /\
               v1.Name c = name /\ v1.ContainerID c = id) /\
  (forall before c after,
     v1.ContainerStatuses in_ = before ++ c :: after -> reportsID c ->
     (forall c', c' ∈ after -> reportsID c' -> v1.Name c' <> v1.Name c) ->
     ids !! v1.Name c = Some (v1.ContainerID c)) /\
  (forall c, c ∈ v1.ContainerStatuses in_ -> reportsID c ->
     is_Some (ids !! v1.Name c)) /\
  ((forall c, c ∈ v1.ContainerStatuses in_ -> ~ reportsID c) -> ids = ∅).
Proof.
  intros ids. subst ids. unfold runningContainerIDs.
  change (fun (out : gmap string string) (c : v1.ContainerStatus) => _)
    with noteContainer.
  assert (Hlast : forall before c after out,
             reportsID c ->
             (forall c', c' ∈ after -> reportsID c' -> v1.Name c' <> v1.Name c) ->
             fold_left noteContainer (before ++ c :: after) out !! v1.Name c
             = Some (v1.ContainerID c)).
  { intros before c after out Hc Hafter. rewrite fold_left_app. cbn [fold_left].
    rewrite noteContainers_keep by done.
    destruct (noteContainer_spec (fold_left noteContainer before out) c)
      as [[_ ->]|[Hn _]]; [apply lookup_insert_eq|done]. }
  split; [|split; [|split]].
  - intros name id [H|(c & Hin & Hr & Hn & Hid)]%noteContainers_lookup.
    + by rewrite lookup_empty in H.
    + split; [|by exists c]. rewrite <- Hid. apply Hr.
  - intros before c after -> Hc Hafter. by apply Hlast.
  - intros c Hin Hc.
    induction (v1.ContainerStatuses in_) as [|c0 l IH] using rev_ind.
    { by apply elem_of_nil in Hin. }
    destruct (decide (reportsID c0 /\ v1.Name c0 = v1.Name c)) as [[Hr0 Hn0]|Hno].
    + exists (v1.ContainerID c0). rewrite <- Hn0.
      apply Hlast; [done|]. by intros ? ?%elem_of_nil.
    + apply elem_of_app in Hin as [Hin|Hin%list_elem_of_singleton].
      * rewrite fold_left_app. cbn [fold_left].
        destruct (noteContainer_spec (fold_left noteContainer l ∅) c0)
          as [[Hr0 ->]|[_ ->]]; [|by apply IH].
        rewrite lookup_insert_ne by (intros E; apply Hno; by split).
        by apply IH.
      * subst c0. destruct Hno. by split.
  - intros Hnone. apply map_eq. intros name. rewrite lookup_empty.
    rewrite noteContainers_keep; [apply lookup_empty|].
    intros c Hin Hr. by destruct (Hnone c Hin).
Qed.

(** ** Monitor.Collect: the process ids of a pod *)

Lemma notePids_lookup (l : list Z) (pids : gmap Z bool) (pid : Z) :
  fold_left (fun pids pid => <[pid := true]> pids) l pids !! pid =
  if decide (pid ∈ l) then Some true else pids !! pid.
Proof.
  revert pids. induction l as [|x l IH]; intros pids; cbn [fold_left].
  - by rewrite decide_False by apply not_elem_of_nil.
  - rewrite IH. destruct (decide (pid ∈ l)) as [Hin|Hout].
    + by rewrite decide_True by (by right).
    + destruct (decide (x = pid)) as [->|Hne].
      * rewrite decide_True by left. apply lookup_insert_eq.
      * rewrite decide_False by (by intros [?|?]%elem_of_cons).
        by apply lookup_insert_ne.
Qed.

Lemma collectContainers_lookup (m : Monitor) (p : v1.Pod)
    (order : list (string * string)) (pids : gmap Z bool) (log : list LogEntry)
    (pid : Z) (b : bool) :
  (forall pid b, pids !! pid = Some b -> b = true) ->
  (fold_left (collectContainer m p) order (pids, log)).1 !! pid = Some b <->
  b = true /\
  ((exists name id, (name, id) ∈ order /\
      (pidGetter m id).2 = None /\ pid ∈ (pidGetter m id).1) \/
   pids !! pid = Some true).
Proof.
  revert pids log. induction order as [|[name id] order IH]; intros pids log Htrue;
    cbn [fold_left].
  - cbn [fst]. split.
    + intros H. pose proof (Htrue _ _ H) as ->. split; [done|by right].
    + intros [-> [(? & ? & ?%elem_of_nil & _)|H]]; done.
  - unfold collectContainer at 2.
    destruct (pidGetter m id) as [containerPids [e|]] eqn:Eg.
    + rewrite IH by done. split.
      * intros [-> [(name' & id' & Hin & Hok & Hpid)|H]].
        -- split; [done|]. left. exists name', id'. split; [by right|done].
        -- split; [done|]. by right.
      * intros [-> [(name' & id' & [[= -> ->]|Hin]%elem_of_cons & Hok & Hpid)|H]].
        -- by rewrite Eg in Hok.
        -- split; [done|]. left. by exists name', id'.
        -- split; [done|]. by right.
    + rewrite IH.
      2:{ intros pid' b'. rewrite notePids_lookup.
          destruct (decide _); [by intros [= <-]|apply Htrue]. }
      rewrite notePids_lookup. split.
      * intros [-> [(name' & id' & Hin & Hok & Hpid)|H]].
        -- split; [done|]. left. exists name', id'. split; [by right|done].
        -- split; [done|]. destruct (decide (pid ∈ containerPids)) as [Hin|Hout].
           ++ left. exists name, id. rewrite Eg. split; [left|done].
           ++ by right.
      * intros [-> [(name' & id' & [[= -> ->]|Hin]%elem_of_cons & Hok & Hpid)|H]].
        -- rewrite Eg in Hpid. cbn [fst] in Hpid.
           split; [done|]. right. by rewrite decide_True.
        -- split; [done|]. left. by exists name', id'.
        -- split; [done|]. right. by destruct (decide _).
Qed.

(** X16.  The process ids of a pod are those [GetPids] returns without
    error for the container ids visited; what comes beside an error is left
    out.  The set does not depend on the order in which the container ids
    are visited, nor on what was logged before. *)
Theorem podPids_members (m : Monitor) (p : v1.Pod)
    (order order' : list (string * string)) (log log' : list LogEntry) :
  order ≡ₚ order' ->
  podPids m p order log = podPids m p order' log' /\
  (forall pid, pid ∈ dom (podPids m p order log) <->
     exists name id, (name, id) ∈ order /\
       (pidGetter m id).2 = None /\ pid ∈ (pidGetter m id).1) /\
  (forall pid b, podPids m p order log !! pid = Some b -> b = true).
Proof.
  intros Hperm.
  assert (Hlook : forall o l pid b,
             podPids m p o l !! pid = Some b <->
             b = true /\ exists name id, (name, id) ∈ o /\
               (pidGetter m id).2 = None /\ pid ∈ (pidGetter m id).1).
  { intros o l pid b. unfold podPids.
    rewrite collectContainers_lookup by (intros ? ?; by rewrite lookup_empty).
    rewrite lookup_empty. split; [intros [-> [H|H]]; done|].
    intros [-> H]. split; [done|by left]. }
  split; [|split].
  - apply map_eq. intros pid. apply option_eq. intros b. rewrite !Hlook.
    split; intros (-> & name & id & Hin & H); (split; [done|]);
      exists name, id; (split; [|done]).
    + by rewrite <- Hperm.
    + by rewrite Hperm.
  - intros pid. rewrite elem_of_dom. split.
    + intros [b Hb]. by apply Hlook in Hb as [_ H].
    + intros H. exists true. by apply Hlook.
  - intros pid b Hb. by apply Hlook in Hb as [-> _].
Qed.

Lemma podPids_members_witness :
  podPids exampleMonitor (examplePod "web" "Running" [])
    [("app", "docker://one"); ("broken", "docker://three"); ("sidecar", "docker://two")] []
  = podPids exampleMonitor (examplePod "web" "Running" [])
      [("sidecar", "docker://two"); ("app", "docker://one"); ("broken", "docker://three")] [].
Proof.
  refine (proj1 (podPids_members exampleMonitor (examplePod "web" "Running" [])
                   [("app", "docker://one"); ("broken", "docker://three");
                    ("sidecar", "docker://two")]
                   [("sidecar", "docker://two"); ("app", "docker://one");
                    ("broken", "docker://three")] [] [] _)).
  apply (Permutation_app_comm [_; _] [_]).
Defined.

(** ** Monitor.Collect: the keys of the connections of a pod *)

Lemma record_dom (l : list Connection) (connections : gmap string Connection) :
  dom (fold_left record l connections) =
  dom connections ∪ list_to_set (connectionKey <$> l).
Proof.
  revert connections. induction l as [|c l IH]; intros connections; cbn [fold_left].
  - cbn [fmap list_fmap]. rewrite list_to_set_nil. apply set_eq. intros x.
    rewrite elem_of_union. split; [by left|]. by intros [?|?%elem_of_empty].
  - rewrite IH. unfold record. rewrite dom_insert_L. cbn [fmap list_fmap].
    rewrite list_to_set_cons. apply set_eq. intros x.
    rewrite !elem_of_union. tauto.
Qed.

Lemma recorded_perm (g : Z -> list Connection * option error) (order order' : list Z) :
  order ≡ₚ order' -> recorded g order ≡ₚ recorded g order'.
Proof.
  unfold recorded. induction 1 as [|x l l' _ IH|x y l|l l' l'' _ IH1 _ IH2];
    cbn [flat_map].
  - done.
  - by rewrite IH.
  - rewrite !app_assoc. f_equiv. apply Permutation_app_comm.
  - by rewrite IH1.
Qed.

Lemma collectConnections_dom (g : Z -> list Connection * option error) (order : list Z) :
  dom (collectConnections g order) = list_to_set (connectionKey <$> recorded g order).
Proof.
  unfold collectConnections. rewrite collectConnections_recorded, record_dom.
  rewrite dom_empty_L. apply set_eq. intros x.
  rewrite elem_of_union, elem_of_empty. tauto.
Qed.

Lemma collectConnections_keyed (g : Z -> list Connection * option error)
    (order : list Z) :
  keyed (collectConnections g order).
Proof.
  unfold collectConnections. rewrite collectConnections_recorded.
  apply record_keyed. intros k c. by rewrite lookup_empty.
Qed.

Lemma record_from (l : list Connection) (connections : gmap string Connection)
    (k : string) (c : Connection) :
  fold_left record l connections !! k = Some c ->
  connections !! k = Some c \/ c ∈ l.
Proof.
  revert connections. induction l as [|i l IH]; intros connections; cbn [fold_left];
    [by left|].
  intros [H|H]%IH; [|right; by right].
  unfold record in H. destruct (decide (connectionKey i = k)) as [<-|Hne].
  - rewrite lookup_insert_eq in H. injection H as <-. right. left.
  - rewrite lookup_insert_ne in H by done. by left.
Qed.

(** X17.  The keys under which the connections of a pod are recorded are
    the keys of all the connections [GetConnections] returned for the
    process ids visited, with or without an error beside them.  This set of
    keys does not depend on the order in which the process ids are visited;
    only the connection kept for a key may. *)
Theorem collectConnections_keys (g : Z -> list Connection * option error)
    (order order' : list Z) :
  order ≡ₚ order' ->
  dom (collectConnections g order) = dom (collectConnections g order') /\
  (forall k, k ∈ dom (collectConnections g order) <->
     exists pid c, pid ∈ order /\ c ∈ (g pid).1 /\ connectionKey c = k) /\
  (forall k c, collectConnections g order !! k = Some c ->
     connectionKey c = k /\ exists pid, pid ∈ order /\ c ∈ (g pid).1).
Proof.
  intros Hperm.
  assert (Hrec : forall o c, c ∈ recorded g o <-> exists pid, pid ∈ o /\ c ∈ (g pid).1).
  { intros o c. unfold recorded. rewrite list_elem_of_In, in_flat_map.
    split; intros (pid & H1 & H2); exists pid; by rewrite ?list_elem_of_In in *. }
  split; [|split].
  - rewrite !collectConnections_dom. apply set_eq. intros k.
    rewrite !elem_of_list_to_set. by rewrite (recorded_perm g _ _ Hperm).
  - intros k. rewrite collectConnections_dom, elem_of_list_to_set, list_elem_of_fmap.
    split.
    + intros (c & -> & (pid & Hp & Hc)%Hrec). by exists pid, c.
    + intros (pid & c & Hp & Hc & <-). exists c. split; [done|].
      apply Hrec. by exists pid.
  - intros k c Hk. split; [by apply (collectConnections_keyed g order)|].
    unfold collectConnections in Hk. rewrite collectConnections_recorded in Hk.
    apply record_from in Hk as [Hk|Hk]; [by rewrite lookup_empty in Hk|].
    by apply Hrec.
Qed.

Lemma collectConnections_keys_witness :
  dom (collectConnections exampleGetter [11; 12]) =
  dom (collectConnections exampleGetter [12; 11]).
Proof.
  apply (collectConnections_keys exampleGetter [11; 12] [12; 11]).
  apply perm_swap.
Defined.

Lemma keyed_values_keys (connections : gmap string Connection) :
  keyed connections ->
  connectionKey <$> connectionValues connections = (map_to_list connections).*1.
Proof.
  intros Hk. unfold connectionValues. rewrite <- list_fmap_compose.
  apply list_fmap_ext. intros i [k c] Hin. cbn.
  apply Hk, elem_of_map_to_list. by apply (list_elem_of_lookup_2 _ i).
Qed.

(** X18.  The connections returned for a pod have keys that are pairwise
    distinct; there are as many as there are keys; and each of them is one
    that [GetConnections] returned for a process id visited. *)
Theorem connectionValues_distinct (g : Z -> list Connection * option error)
    (order : list Z) :
  let conns := connectionValues (collectConnections g order) in
  NoDup (connectionKey <$> conns) /\
  length conns = size (dom (collectConnections g order)) /\
  (forall c, c ∈ conns -> exists pid, pid ∈ order /\ c ∈ (g pid).1).
Proof.
  intros conns. subst conns.
  pose proof (collectConnections_keyed g order) as Hk.
  split; [|split].
  - rewrite (keyed_values_keys _ Hk). apply NoDup_fst_map_to_list.
  - unfold connectionValues. rewrite length_fmap, length_map_to_list.
    by rewrite size_dom.
  - intros c ([k c'] & -> & Hin)%list_elem_of_fmap.
    apply elem_of_map_to_list in Hin. cbn [snd].
    unfold collectConnections in Hin. rewrite collectConnections_recorded in Hin.
    apply record_from in Hin as [Hin|Hin]; [by rewrite lookup_empty in Hin|].
    unfold recorded in Hin. apply list_elem_of_In, in_flat_map in Hin.
    destruct Hin as (pid & H1 & H2). exists pid. by rewrite !list_elem_of_In.
Qed.

(** ** Monitor.Collect: the whole loop *)

Lemma podPids_lookup (m : Monitor) (p : v1.Pod) (order : list (string * string))
    (log : list LogEntry) (pid : Z) (b : bool) :
  podPids m p order log !! pid = Some b <->
  b = true /\ exists name id, (name, id) ∈ order /\
    (pidGetter m id).2 = None /\ pid ∈ (pidGetter m id).1.
Proof.
  unfold podPids.
  rewrite collectContainers_lookup by (intros ? ?; by rewrite lookup_empty).
  rewrite lookup_empty. split; [intros [-> [H|H]]; done|].
  intros [-> H]. split; [done|by left].
Qed.

Lemma podPids_log (m : Monitor) (p : v1.Pod) (order : list (string * string))
    (log : list LogEntry) :
  podPids m p order log = podPids m p order [].
Proof.
  apply map_eq. intros pid. apply option_eq. intros b. by rewrite !podPids_lookup.
Qed.

Lemma collectPidLogged_fst (m : Monitor) (p : v1.Pod) (order : list Z)
    (connections : gmap string Connection) (log : list LogEntry) :
  (fold_left (collectPidLogged m p) order (connections, log)).1 =
  fold_left (collectPid (connectionGetter m)) order connections.
Proof.
  revert connections log. induction order as [|pid order IH]; intros connections log;
    [done|].
  cbn [fold_left]. unfold collectPidLogged at 2, collectPid at 2.
  destruct (connectionGetter m pid) as [c err]. apply IH.
Qed.

Lemma collectPod_fst (m : Monitor) (sched : Schedule) (n : nat) (p : v1.Pod)
    (out : gmap Pod (list Connection)) (log : list LogEntry) :
  (collectPod m sched n p (out, log)).1 = <[podOf p := podConnections m sched n p]> out.
Proof.
  unfold collectPod, podConnections.
  pose proof (podPids_log m p (rangeIDs sched n (runningContainerIDs (v1.Status p))) log)
    as Hpids. unfold podPids in Hpids at 1.
  destruct (fold_left (collectContainer m p) _ (∅, log)) as [pids log1].
  cbn [fst] in Hpids. subst pids.
  pose proof (collectPidLogged_fst m p
                (rangePids sched n
                   (podPids m p (rangeIDs sched n (runningContainerIDs (v1.Status p))) []))
                ∅ log1) as Hconns.
  destruct (fold_left (collectPidLogged m p) _ (∅, log1)) as [connections log2].
  cbn [fst] in Hconns. subst connections.
  rewrite append_each. cbn [fst app]. done.
Qed.

Lemma collectPods_lookup (m : Monitor) (sched : Schedule) (pods : list v1.Pod)
    (n : nat) (out : gmap Pod (list Connection)) (log : list LogEntry)
    (pod : Pod) (conns : list Connection) :
  (collectPods m sched n pods (out, log)).1 !! pod = Some conns ->
  out !! pod = Some conns \/
  exists i p, pods !! i = Some p /\ podOf p = pod /\
              conns = podConnections m sched (n + i) p.
Proof.
  revert n out log. induction pods as [|p pods IH]; intros n out log;
    cbn [collectPods]; [by left|].
  pose proof (collectPod_fst m sched n p out log) as Hfst.
  destruct (collectPod m sched n p (out, log)) as [out1 log1]. cbn [fst] in Hfst.
  intros [H|(i & p' & Hi & Hp & Hc)]%IH.
  - subst out1. destruct (decide (podOf p = pod)) as [E|E].
    + rewrite <- E, lookup_insert_eq in H. injection H as <-.
      right. exists 0%nat, p. by rewrite Nat.add_0_r.
    + rewrite lookup_insert_ne in H by done. by left.
  - right. exists (S i), p'. split; [done|]. split; [done|].
    by replace (n + S i)%nat with (S n + i)%nat by lia.
Qed.

Lemma collectPods_dom (m : Monitor) (sched : Schedule) (pods : list v1.Pod)
    (n : nat) (out : gmap Pod (list Connection)) (log : list LogEntry) :
  dom (collectPods m sched n pods (out, log)).1 =
  dom out ∪ list_to_set (podOf <$> pods).
Proof.
  revert n out log. induction pods as [|p pods IH]; intros n out log;
    cbn [collectPods fmap list_fmap].
  - rewrite list_to_set_nil. apply set_eq. intros x.
    rewrite elem_of_union, elem_of_empty. tauto.
  - pose proof (collectPod_fst m sched n p out log) as Hfst.
    destruct (collectPod m sched n p (out, log)) as [out1 log1]. cbn [fst] in Hfst.
    rewrite IH, Hfst, dom_insert_L, list_to_set_cons. apply set_eq. intros x.
    rewrite !elem_of_union. tauto.
Qed.

Lemma Collect_listed (m : Monitor) (sched : Schedule) (pods : list v1.Pod) :
  podLister m (nodeName m) = (pods, None) ->
  Collect m sched =
    ((collectPods m sched 0 (runningPods pods) (∅, [])).1, None,
     (collectPods m sched 0 (runningPods pods) (∅, [])).2).
Proof.
  intros H. unfold Collect. rewrite H.
  by destruct (collectPods m sched 0 (runningPods pods) (∅, [])).
Qed.

(** X19.  [Collect] fails exactly when the pods cannot be listed; it then
    returns no pod and the error of the listing wrapped with the node name.
    Once the pods are listed no failure of [GetPids] or [GetConnections]
    makes it fail. *)
Theorem Collect_error (m : Monitor) (sched : Schedule) :
  ((Collect m sched).1.2 <> None <-> (podLister m (nodeName m)).2 <> None) /\
  (forall pods e, podLister m (nodeName m) = (pods, Some e) ->
     Collect m sched =
       (∅, Some (Wrapf e "failed to get pods for node %q" (nodeName m)), [])).
Proof.
  unfold Collect. destruct (podLister m (nodeName m)) as [pods [e|]]; cbn [snd].
  - split; [done|]. by intros ? ? [= <- <-].
  - destruct (collectPods m sched 0 (runningPods pods) (∅, [])) as [out log].
    cbn [fst snd]. split; [done|]. intros ? ? [=].
Qed.

(** X20.  When the pods are listed, the pods [Collect] reports are those
    whose phase is Running or Pending, under their name and namespace: each
    is reported, with or without connections, and no other pod is. *)
Theorem Collect_reports_eligible_pods (m : Monitor) (sched : Schedule)
    (pods : list v1.Pod) :
  podLister m (nodeName m) = (pods, None) ->
  forall pod, pod ∈ dom (Collect m sched).1.1 <->
              exists p, p ∈ pods /\ eligible p /\ podOf p = pod.
Proof.
  intros Hlist pod. rewrite (Collect_listed m sched pods Hlist). cbn [fst].
  rewrite collectPods_dom, dom_empty_L, elem_of_union, elem_of_empty.
  rewrite elem_of_list_to_set, list_elem_of_fmap.
  assert (Hrun : runningPods pods = filter eligible pods).
  { unfold runningPods. by rewrite runningPods_from. }
  rewrite Hrun. split.
  - intros [[]|(p & -> & [He Hin]%list_elem_of_filter)]. by exists p.
  - intros (p & Hin & He & <-). right. exists p. split; [done|].
    by apply list_elem_of_filter.
Qed.

Lemma Collect_reports_eligible_pods_witness :
  {| Name := "idle"; Namespace := "default" |} ∈ dom (Collect exampleMonitor canonicalSchedule).1.1
  /\ {| Name := "done"; Namespace := "default" |} ∉ dom (Collect exampleMonitor canonicalSchedule).1.1.
Proof.
  pose proof (Collect_reports_eligible_pods exampleMonitor canonicalSchedule
                examplePods eq_refl) as H.
  split.
  - apply H. exists (examplePod "idle" "Pending" [exampleContainer "wait" "" true]).
    split; [right; right; left|]. split; [by right|done].
  - intros (p & Hin & He & Hp)%H.
    apply list_elem_of_In in Hin.
    destruct Hin as [<-|[<-|[<-|[]]]]; try discriminate Hp.
    by destruct He.
Defined.

Lemma connectionValues_from (g : Z -> list Connection * option error)
    (order : list Z) (c : Connection) :
  c ∈ connectionValues (collectConnections g order) ->
  exists pid, pid ∈ order /\ c ∈ (g pid).1.
Proof.
  intros ([k c'] & -> & Hin)%list_elem_of_fmap.
  apply elem_of_map_to_list in Hin. cbn [snd].
  unfold collectConnections in Hin. rewrite collectConnections_recorded in Hin.
  apply record_from in Hin as [Hin|Hin]; [by rewrite lookup_empty in Hin|].
  unfold recorded in Hin. apply list_elem_of_In, in_flat_map in Hin.
  destruct Hin as (pid & H1 & H2). exists pid. by rewrite !list_elem_of_In.
Qed.

Lemma runningContainerIDs_from (in_ : v1.PodStatus) (name id : string) :
  runningContainerIDs in_ !! name = Some id ->
  exists c, c ∈ v1.ContainerStatuses in_ /\ reportsID c /\
            v1.Name c = name /\ v1.ContainerID c = id.
Proof.
  unfold runningContainerIDs.
  change (fun (out : gmap string string) (c : v1.ContainerStatus) => _)
    with noteContainer.
  intros [H|H]%noteContainers_lookup; [by rewrite lookup_empty in H|done].
Qed.

(** The connections of a pod under a fair schedule. *)
Lemma podConnections_fair (m : Monitor) (sched : Schedule) (n : nat) (p : v1.Pod) :
  fair sched ->
  exists order,
    podConnections m sched n p
      ≡ₚ connectionValues (collectConnections (connectionGetter m) order) /\
    (forall pid, pid ∈ order ->
       exists c, c ∈ v1.ContainerStatuses (v1.Status p) /\ reportsID c /\
                 (pidGetter m (v1.ContainerID c)).2 = None /\
                 pid ∈ (pidGetter m (v1.ContainerID c)).1).
Proof.
  intros Hfair. destruct (Hfair n) as (Hids & Hpids & Hconns).
  unfold podConnections.
  set (ids := runningContainerIDs (v1.Status p)).
  set (pids := podPids m p (rangeIDs sched n ids) []).
  exists (rangePids sched n pids). split; [apply Hconns|].
  intros pid Hpid. rewrite (Hpids pids) in Hpid.
  apply list_elem_of_fmap in Hpid as ([pid' b] & -> & Hin).
  apply elem_of_map_to_list in Hin. cbn [fst].
  apply podPids_lookup in Hin as (_ & name & id & Hentry & Hok & Hp).
  rewrite (Hids ids) in Hentry. apply elem_of_map_to_list in Hentry.
  apply runningContainerIDs_from in Hentry as (c & Hc & Hr & _ & <-).
  by exists c.
Qed.

(** Where the connections reported for a pod come from. *)
Lemma Collect_connections_aux (m : Monitor) (sched : Schedule) (pods : list v1.Pod)
    (pod : Pod) (conns : list Connection) :
  fair sched ->
  podLister m (nodeName m) = (pods, None) ->
  (Collect m sched).1.1 !! pod = Some conns ->
  (forall c, c ∈ conns ->
     exists p container pid,
       p ∈ pods /\ eligible p /\ podOf p = pod /\
       container ∈ v1.ContainerStatuses (v1.Status p) /\ reportsID container /\
       (pidGetter m (v1.ContainerID container)).2 = None /\
       pid ∈ (pidGetter m (v1.ContainerID container)).1 /\
       c ∈ (connectionGetter m pid).1).
Proof.
  intros Hfair Hlist. rewrite (Collect_listed m sched pods Hlist). cbn [fst].
  intros [H|(i & p & Hi & Hp & ->)]%collectPods_lookup;
    [by rewrite lookup_empty in H|].
  assert (Hin : p ∈ pods /\ eligible p).
  { apply list_elem_of_lookup_2 in Hi. unfold runningPods in Hi.
    rewrite runningPods_from in Hi. cbn [app] in Hi.
    apply list_elem_of_filter in Hi. tauto. }
  destruct (podConnections_fair m sched (0 + i) p Hfair) as (order & Hperm & Horder).
  intros c Hc. rewrite Hperm in Hc.
  apply connectionValues_from in Hc as (pid & Hpid & Hc).
  destruct (Horder pid Hpid) as (container & H1 & H2 & H3 & H4).
  exists p, container, pid. tauto.
Qed.

(** X21.  Under a schedule that visits every entry of each map once, the
    connections reported for a pod have pairwise distinct keys, and each of
    them was returned by [GetConnections] for a process id that [GetPids]
    returned, without error, for a container of a listed pod with that name
    and namespace and a phase Running or Pending, where the container runs
    and has an id. *)
Theorem Collect_connections (m : Monitor) (sched : Schedule) (pods : list v1.Pod)
    (pod : Pod) (conns : list Connection) :
  fair sched ->
  podLister m (nodeName m) = (pods, None) ->
  (Collect m sched).1.1 !! pod = Some conns ->
  NoDup (connectionKey <$> conns) /\
  (forall c, c ∈ conns ->
     exists p container pid,
       p ∈ pods /\ eligible p /\ podOf p = pod /\
       container ∈ v1.ContainerStatuses (v1.Status p) /\ reportsID container /\
       (pidGetter m (v1.ContainerID container)).2 = None /\
       pid ∈ (pidGetter m (v1.ContainerID container)).1 /\
       c ∈ (connectionGetter m pid).1).
Proof.
  intros Hfair Hlist. rewrite (Collect_listed m sched pods Hlist). cbn [fst].
  intros [H|(i & p & Hi & Hp & ->)]%collectPods_lookup;
    [by rewrite lookup_empty in H|].
  assert (Hin : p ∈ pods /\ eligible p).
  { apply list_elem_of_lookup_2 in Hi. unfold runningPods in Hi.
    rewrite runningPods_from in Hi. cbn [app] in Hi.
    apply list_elem_of_filter in Hi. tauto. }
  destruct (podConnections_fair m sched (0 + i) p Hfair) as (order & Hperm & Horder).
  split.
  - rewrite Hperm, keyed_values_keys by apply collectConnections_keyed.
    apply NoDup_fst_map_to_list.
  - intros c Hc. rewrite Hperm in Hc.
    apply connectionValues_from in Hc as (pid & Hpid & Hc).
    destruct (Horder pid Hpid) as (container & H1 & H2 & H3 & H4).
    exists p, container, pid. tauto.
Qed.

Lemma canonicalSchedule_fair : fair canonicalSchedule.
Proof. intros n. repeat split; done. Qed.

Lemma Collect_connections_witness :
  exists conns,
    (Collect exampleMonitor canonicalSchedule).1.1
      !! {| Name := "web"; Namespace := "default" |} = Some conns /\
    length conns = 2%nat /\
    NoDup (connectionKey <$> conns).
Proof.
  destruct ((Collect exampleMonitor canonicalSchedule).1.1
              !! {| Name := "web"; Namespace := "default" |}) as [conns|] eqn:E;
    [|vm_compute in E; discriminate E].
  exists conns. split; [done|]. split.
  - assert (Hlen : (length <$> (Collect exampleMonitor canonicalSchedule).1.1
                                 !! {| Name := "web"; Namespace := "default" |})
                   = Some 2%nat) by (vm_compute; reflexivity).
    rewrite E in Hlen. by injection Hlen.
  - exact (proj1 (Collect_connections exampleMonitor canonicalSchedule examplePods
                    {| Name := "web"; Namespace := "default" |} conns
                    canonicalSchedule_fair eq_refl E)).
Defined.

(** X22.  A pod whose phase is Running or Pending and that has no running
    container with an id is reported with an empty list of connections,
    provided no other listed pod of that phase, name and namespace has such
    a container. *)
Theorem Collect_pod_without_containers (m : Monitor) (sched : Schedule)
    (pods : list v1.Pod) (p : v1.Pod) :
  fair sched ->
  podLister m (nodeName m) = (pods, None) ->
  p ∈ pods -> eligible p ->
  (forall p', p' ∈ pods -> eligible p' -> podOf p' = podOf p ->
     forall c, c ∈ v1.ContainerStatuses (v1.Status p') -> ~ reportsID c) ->
  (Collect m sched).1.1 !! podOf p = Some [].
Proof.
  intros Hfair Hlist Hin He Hnone.
  assert (Hdom : podOf p ∈ dom (Collect m sched).1.1).
  { rewrite (Collect_listed m sched pods Hlist). cbn [fst].
    rewrite collectPods_dom, elem_of_union, elem_of_list_to_set. right.
    apply list_elem_of_fmap. exists p. split; [done|].
    unfold runningPods. rewrite runningPods_from. cbn [app].
    by apply list_elem_of_filter. }
  apply elem_of_dom in Hdom as [conns Hconns]. rewrite Hconns. f_equal.
  destruct conns as [|c conns]; [done|]. exfalso.
  destruct (Collect_connections_aux m sched pods (podOf p) (c :: conns) Hfair Hlist Hconns
              c ltac:(left))
    as (p' & container & pid & H1 & H2 & H3 & H4 & H5 & _).
  by apply (Hnone p' H1 H2 H3 container H4).
Qed.

Lemma Collect_pod_without_containers_witness :
  (Collect exampleMonitor canonicalSchedule).1.1
    !! {| Name := "idle"; Namespace := "default" |} = Some [].
Proof.
  apply (Collect_pod_without_containers exampleMonitor canonicalSchedule examplePods
           (examplePod "idle" "Pending" [exampleContainer "wait" "" true])
           canonicalSchedule_fair eq_refl).
  - right. right. left.
  - by right.
  - intros p' Hin He Hp c Hc [_ Hid].
    apply list_elem_of_In in Hin.
    destruct Hin as [<-|[<-|[<-|[]]]]; try discriminate Hp.
    apply list_elem_of_singleton in Hc. subst c. by apply Hid.
Defined.

(** ** Monitor.Collect: what it logs *)

Lemma collectContainers_log (m : Monitor) (p : v1.Pod) (order : list (string * string))
    (pids : gmap Z bool) (log : list LogEntry) :
  (fold_left (collectContainer m p) order (pids, log)).2 =
  log ++ (containerWarning p <$>
            filter (fun entry => (pidGetter m entry.2).2 <> None) order).
Proof.
  revert pids log. induction order as [|[name id] order IH]; intros pids log;
    cbn [fold_left].
  - cbn. by rewrite app_nil_r.
  - unfold collectContainer at 2. rewrite filter_cons. cbn [snd].
    destruct (pidGetter m id) as [containerPids [e|]]; cbn [snd].
    + rewrite decide_True by done. rewrite IH. unfold Warn.
      cbn [fmap list_fmap]. by rewrite <- app_assoc.
    + rewrite decide_False by (by intros H). apply IH.
Qed.

Lemma collectPids_log (m : Monitor) (p : v1.Pod) (order : list Z)
    (connections : gmap string Connection) (log : list LogEntry) :
  (fold_left (collectPidLogged m p) order (connections, log)).2 =
  log ++ (pidWarning p <$> filter (fun pid => (connectionGetter m pid).2 <> None) order).
Proof.
  revert connections log. induction order as [|pid order IH]; intros connections log;
    cbn [fold_left].
  - cbn. by rewrite app_nil_r.
  - unfold collectPidLogged at 2. rewrite filter_cons.
    destruct (connectionGetter m pid) as [c [e|]]; cbn [snd].
    + rewrite decide_True by done. rewrite IH. unfold Warn.
      cbn [fmap list_fmap]. by rewrite <- app_assoc.
    + rewrite decide_False by (by intros H). apply IH.
Qed.

Lemma collectPod_snd (m : Monitor) (sched : Schedule) (n : nat) (p : v1.Pod)
    (out : gmap Pod (list Connection)) (log : list LogEntry) :
  (collectPod m sched n p (out, log)).2 = log ++ podWarnings m sched n p.
Proof.
  unfold collectPod, podWarnings.
  pose proof (podPids_log m p (rangeIDs sched n (runningContainerIDs (v1.Status p))) log)
    as Hpids. unfold podPids in Hpids at 1.
  pose proof (collectContainers_log m p
                (rangeIDs sched n (runningContainerIDs (v1.Status p))) ∅ log) as Hlog1.
  destruct (fold_left (collectContainer m p) _ (∅, log)) as [pids log1].
  cbn [fst snd] in Hpids, Hlog1. subst pids log1.
  set (order := rangePids sched n _).
  pose proof (collectPids_log m p order ∅
                (log ++ (containerWarning p <$>
                   filter (fun entry => (pidGetter m entry.2).2 <> None)
                     (rangeIDs sched n (runningContainerIDs (v1.Status p))))))
    as Hlog2.
  destruct (fold_left (collectPidLogged m p) order _) as [connections log2].
  cbn [snd] in *. subst log2. by rewrite <- app_assoc.
Qed.

Lemma collectPods_snd (m : Monitor) (sched : Schedule) (pods : list v1.Pod) (n : nat)
    (out : gmap Pod (list Connection)) (log : list LogEntry) :
  (collectPods m sched n pods (out, log)).2 =
  log ++ concat (imap (fun i p => podWarnings m sched (n + i) p) pods).
Proof.
  revert n out log. induction pods as [|p pods IH]; intros n out log;
    cbn [collectPods imap concat].
  - by rewrite app_nil_r.
  - pose proof (collectPod_snd m sched n p out log) as Hsnd.
    destruct (collectPod m sched n p (out, log)) as [out1 log1]. cbn [snd] in Hsnd.
    rewrite IH, Hsnd, <- app_assoc, Nat.add_0_r. f_equal. f_equal. f_equal.
    apply imap_ext. intros i p' _. cbn. f_equal. lia.
Qed.

Lemma concat_imap_nil {A B : Type} (f : nat -> A -> list B) (l : list A) :
  (forall i x, f i x = []) -> concat (imap f l) = [].
Proof.
  revert f. induction l as [|x l IH]; intros f Hf; [done|].
  cbn [imap concat]. rewrite Hf. apply IH. intros i y. apply Hf.
Qed.

(** X23.  What [Collect] logs.  The entries are, pod by pod in the order
    of the listed pods that are Running or Pending, one warning for each
    container id for which [GetPids] failed, in the order the ids were
    visited, and then one warning for each process id for which
    [GetConnections] failed.  When no call fails nothing is logged. *)
Theorem Collect_log (m : Monitor) (sched : Schedule) (pods : list v1.Pod) :
  podLister m (nodeName m) = (pods, None) ->
  (Collect m sched).2 =
    concat (imap (fun i p => podWarnings m sched i p) (filter eligible pods)) /\
  ((forall id, (pidGetter m id).2 = None) ->
   (forall pid, (connectionGetter m pid).2 = None) ->
   (Collect m sched).2 = []).
Proof.
  intros Hlist. rewrite (Collect_listed m sched pods Hlist). cbn [snd].
  rewrite collectPods_snd. cbn [app].
  unfold runningPods. rewrite runningPods_from. cbn [app].
  split; [done|]. intros Hpids Hconns.
  apply concat_imap_nil. intros i p. unfold podWarnings.
  rewrite !filter_none; [done| |].
  - intros pid _ H. by apply H.
  - intros entry _ H. by apply H.
Qed.

Lemma Collect_log_witness :
  (Collect exampleMonitor canonicalSchedule).2 =
    [containerWarning
       (examplePod "web" "Running"
          [ exampleContainer "app" "docker://one" true;
            exampleContainer "sidecar" "docker://two" true;
            exampleContainer "broken" "docker://three" true;
            exampleContainer "init" "docker://zero" false ])
       ("broken", "docker://three")].
Proof.
  rewrite (proj1 (Collect_log exampleMonitor canonicalSchedule examplePods eq_refl)).
  vm_compute. reflexivity.
Defined.

(** ** getFQDN *)

Lemma takeBytes_app (s rest : string) :
  GoNet.takeBytes (String.length s) (s +:+ rest) = s.
Proof. induction s as [|c s IH]; [by destruct rest|]. simpl. by rewrite IH. Qed.

Lemma length_append (s rest : string) :
  String.length (s +:+ rest) = (String.length s + String.length rest)%nat.
Proof. induction s as [|c s IH]; [done|]. simpl. by rewrite IH. Qed.

(** [TrimSuffix] takes a suffix off. *)
Lemma TrimSuffix_app (s suffix : string) : GoNet.TrimSuffix (s +:+ suffix) suffix = s.
Proof.
  unfold GoNet.TrimSuffix, GoNet.HasSuffix. rewrite length_append.
  replace (String.length s + String.length suffix - String.length suffix)%nat
    with (String.length s) by lia.
  rewrite dropBytes_app, takeBytes_app, String.eqb_refl.
  destruct (Nat.leb_spec (String.length suffix)
              (String.length s + String.length suffix)); [done|lia].
Qed.

Lemma To4_length (ip : list Z) : Go.To4 ip <> [] -> length (Go.To4 ip) = 4%nat.
Proof.
  unfold Go.To4.
  destruct (Z.eqb_spec (Z.of_nat (length ip)) Go.IPv4len) as [E|E].
  - intros _. unfold Go.IPv4len in E. lia.
  - destruct (Z.eqb_spec (Z.of_nat (length ip)) Go.IPv6len) as [E6|E6]; [|done].
    destruct (_ && _ && _); [|done]. intros _.
    rewrite length_drop. unfold Go.IPv6len in E6. lia.
Qed.

Lemma MarshalText_To4 (ip : list Z) :
  Go.To4 ip <> [] -> GoNet.MarshalText (Go.To4 ip) = (dotted (Go.To4 ip), None).
Proof.
  intros H. pose proof (To4_length ip H) as Hlen. unfold GoNet.MarshalText.
  rewrite Hlen. change (Z.of_nat 4 =? 0) with false.
  change (Z.of_nat 4 =? Go.IPv4len) with true. cbn [negb andb].
  by rewrite IP_String_four.
Qed.

Lemma getFQDN_addrs_first (h : Host) (hostname : string)
    (before after : list (list Z)) (addr : list Z) :
  Forall (fun a => Go.To4 a = []) before -> Go.To4 addr <> [] ->
  getFQDN_addrs h hostname (before ++ addr :: after) =
  match net_LookupAddr h (dotted (Go.To4 addr)) with
  | (fqdn :: _, None) => (GoNet.TrimSuffix fqdn ".", None)
  | _ => (hostname, None)
  end.
Proof.
  intros Hbefore Haddr. induction Hbefore as [|a before Ha _ IH]; cbn [app getFQDN_addrs].
  - rewrite (MarshalText_To4 addr Haddr).
    destruct (Go.To4 addr) as [|b bs] eqn:E; [done|]. rewrite <- E.
    destruct (net_LookupAddr h (dotted (Go.To4 addr))) as [[|fqdn hosts] [e|]]; done.
  - by rewrite Ha.
Qed.

Lemma getFQDN_addrs_none (h : Host) (hostname : string) (addrs : list (list Z)) :
  Forall (fun a => Go.To4 a = []) addrs ->
  getFQDN_addrs h hostname addrs = (hostname, None).
Proof.
  induction 1 as [|a addrs Ha _ IH]; cbn [getFQDN_addrs]; [done|]. by rewrite Ha.
Qed.

(** X24.  [getFQDN] fails exactly when the host name cannot be read.  With
    the host name read, it is the host name itself when its addresses cannot
    be looked up or none has an IPv4 form; otherwise the first address with
    an IPv4 form decides, whatever addresses follow it: the result is the
    first name of its reverse lookup without a final dot, or the host name
    when that lookup fails or is empty. *)
Theorem getFQDN_result (h : Host) :
  ((getFQDN h).2 <> None <-> (os_Hostname h).2 <> None) /\
  (forall hostname, os_Hostname h = (hostname, None) ->
     (forall addrs e, net_LookupIP h hostname = (addrs, Some e) ->
        getFQDN h = (hostname, None)) /\
     (forall addrs, net_LookupIP h hostname = (addrs, None) ->
        Forall (fun a => Go.To4 a = []) addrs -> getFQDN h = (hostname, None)) /\
     (forall before addr after,
        net_LookupIP h hostname = (before ++ addr :: after, None) ->
        Forall (fun a => Go.To4 a = []) before -> Go.To4 addr <> [] ->
        (forall name hosts,
           net_LookupAddr h (dotted (Go.To4 addr)) = ((name +:+ ".") :: hosts, None) ->
           getFQDN h = (name, None)) /\
        (forall hosts e,
           net_LookupAddr h (dotted (Go.To4 addr)) = (hosts, Some e) ->
           getFQDN h = (hostname, None)) /\
        (net_LookupAddr h (dotted (Go.To4 addr)) = ([], None) ->
         getFQDN h = (hostname, None)))).
Proof.
  unfold getFQDN. split.
  - destruct (os_Hostname h) as [hostname [e|]]; cbn [snd]; [done|].
    destruct (net_LookupIP h hostname) as [addrs [e|]]; cbn [snd]; [done|].
    split; [|done]. intros H. exfalso. apply H. clear H.
    induction addrs as [|a addrs IH]; cbn [getFQDN_addrs]; [done|].
    destruct (Go.To4 a) as [|b bs]; [done|].
    destruct (GoNet.MarshalText _) as [ip [e|]]; [done|].
    destruct (net_LookupAddr h ip) as [[|fqdn hosts] [e|]]; done.
  - intros hostname ->. split; [|split].
    + intros addrs e ->. done.
    + intros addrs ->. apply getFQDN_addrs_none.
    + intros before addr after -> Hbefore Haddr.
      rewrite (getFQDN_addrs_first h hostname before after addr Hbefore Haddr).
      split; [|split].
      * intros name hosts ->. by rewrite TrimSuffix_app.
      * intros hosts e ->. by destruct hosts.
      * intros ->. done.
Qed.

Lemma getFQDN_result_witness : getFQDN exampleHost = ("web-1.example.org", None).
Proof.
  refine (proj1 (proj2 (proj2 (proj2 (getFQDN_result exampleHost) "web-1" eq_refl))
                   [[254; 128; 0; 0; 0; 0; 0; 0; 0; 0; 0; 0; 0; 0; 0; 1]]
                   [10; 0; 0; 5] [[10; 0; 0; 6]] eq_refl _ _)
            "web-1.example.org" ["alias."] eq_refl).
  - by repeat constructor.
  - discriminate.
Defined.

(** ** New *)

Lemma applyOptions_error (options : list Option) (m m' : Monitor) (e : error) :
  applyOptions options m = (m', Some e) -> exists cause, e = Wrap cause "options failed".
Proof.
  revert m. induction options as [|f options IH]; intros m; cbn [applyOptions];
    [discriminate|].
  destruct (f m) as [m1 [e1|]]; [|apply IH]. intros [= _ <-]. by exists e1.
Qed.

(** X25.  [New] returns a monitor or an error, never both and never
    neither.  A monitor it returns has a logger, and the last field of that
    logger is the node name of the monitor. *)
Theorem New_returns_ready_monitor (h : Host)
    (pl : string -> list v1.Pod * option error)
    (pg : string -> list Z * option error)
    (cg : Z -> list Connection * option error) (options : list Option) :
  ((New h pl pg cg options).1 = None <-> (New h pl pg cg options).2 <> None) /\
  (forall m, (New h pl pg cg options).1 = Some m ->
     exists l fields,
       logger m = Some l /\
       context l = fields ++ [zap_String "nodeName" (nodeName m)]).
Proof.
  unfold New.
  destruct (applyOptions options _) as [m1 [e|]]; cbn [fst snd]; [by split|].
  destruct (logger m1) as [l|].
  - destruct (String.eqb (nodeName m1) "").
    + destruct (getFQDN h) as [hostname [e|]]; cbn [errors_Wrap fst snd];
        [by split|].
      split; [by split|]. intros m [= <-]. cbn. by exists (With l [zap_String "nodeName" hostname]), (context l).
    + cbn [fst snd]. split; [by split|]. intros m [= <-]. cbn.
      by exists (With l [zap_String "nodeName" (nodeName m1)]), (context l).
  - destruct (zap_NewProduction h) as [l [e|]]; cbn [errors_Wrap fst snd];
      [by split|].
    destruct (String.eqb (nodeName m1) "").
    + destruct (getFQDN h) as [hostname [e|]]; cbn [errors_Wrap fst snd];
        [by split|].
      split; [by split|]. intros m [= <-]. cbn.
      by exists (With l [zap_String "nodeName" hostname]), (context l).
    + cbn [fst snd]. split; [by split|]. intros m [= <-]. cbn.
      by exists (With l [zap_String "nodeName" (nodeName m1)]), (context l).
Qed.

(** X26.  When the options leave a logger and a node name that is not
    empty, [New] asks nothing of the host: no default logger is made and no
    host name is looked up, and the monitor has that node name and that
    logger with the node name added. *)
Theorem New_host_not_consulted (h h' : Host)
    (pl : string -> list v1.Pod * option error)
    (pg : string -> list Z * option error)
    (cg : Z -> list Connection * option error) (options : list Option)
    (m1 : Monitor) (l : Logger) :
  applyOptions options
    {| podLister := pl; pidGetter := pg; connectionGetter := cg;
       logger := None; nodeName := "" |} = (m1, None) ->
  logger m1 = Some l -> nodeName m1 <> "" ->
  New h pl pg cg options = New h' pl pg cg options /\
  New h pl pg cg options =
    (Some {| podLister := podLister m1; pidGetter := pidGetter m1;
             connectionGetter := connectionGetter m1;
             logger := Some (With l [zap_String "nodeName" (nodeName m1)]);
             nodeName := nodeName m1 |}, None).
Proof.
  intros Hopts Hl Hname. unfold New. rewrite Hopts, Hl.
  apply String.eqb_neq in Hname. by rewrite Hname.
Qed.

Lemma New_host_not_consulted_witness :
  New exampleHost (podLister exampleMonitor) examplePidGetter exampleGetter exampleOptions
  = New brokenHost (podLister exampleMonitor) examplePidGetter exampleGetter exampleOptions.
Proof.
  refine (proj1 (New_host_not_consulted exampleHost brokenHost
                   (podLister exampleMonitor) examplePidGetter exampleGetter
                   exampleOptions exampleConfigured
                   {| origin := "test"; context := [] |} eq_refl eq_refl _)).
  discriminate.
Defined.

(** X27.  The options are applied in order, and the first that fails ends
    [New]: the error is the one of that option wrapped with
    [options failed], no monitor is returned, and neither the options after
    it nor the host are looked at. *)
Theorem New_option_failure (h : Host)
    (pl : string -> list v1.Pod * option error)
    (pg : string -> list Z * option error)
    (cg : Z -> list Connection * option error)
    (before after : list Option) (f : Option) (m1 m2 : Monitor) (e : error) :
  applyOptions before
    {| podLister := pl; pidGetter := pg; connectionGetter := cg;
       logger := None; nodeName := "" |} = (m1, None) ->
  f m1 = (m2, Some e) ->
  New h pl pg cg (before ++ f :: after) = (None, Some (Wrap e "options failed")).
Proof.
  intros Hbefore Hf. unfold New.
  assert (Happ : forall m0, applyOptions before m0 = (m1, None) ->
                 applyOptions (before ++ f :: after) m0
                 = (m2, Some (Wrap e "options failed"))).
  { clear Hbefore. induction before as [|g before IH]; intros m0; cbn [app applyOptions].
    - intros [= ->]. by rewrite Hf.
    - destruct (g m0) as [m' [e'|]]; [discriminate|]. apply IH. }
  by rewrite (Happ _ Hbefore).
Qed.

Lemma New_option_failure_witness :
  New exampleHost (podLister exampleMonitor) examplePidGetter exampleGetter
    ([WithNodeName "node-1"] ++ failingOption :: [WithNodeName "node-2"])
  = (None, Some (Wrap (ErrOS "bad option") "options failed")).
Proof.
  apply (New_option_failure exampleHost _ _ _ [WithNodeName "node-1"]
           [WithNodeName "node-2"] failingOption
           (WithNodeName "node-1"
              {| podLister := podLister exampleMonitor; pidGetter := examplePidGetter;
                 connectionGetter := exampleGetter; logger := None; nodeName := "" |}).1
           (WithNodeName "node-1"
              {| podLister := podLister exampleMonitor; pidGetter := examplePidGetter;
                 connectionGetter := exampleGetter; logger := None; nodeName := "" |}).1
           (ErrOS "bad option"));
    reflexivity.
Defined.

(** ** reverse and connectionKey *)

(** X28.  [reverse] turns a sequence of bytes of any length round, in
    place and within its bounds: the result is the sequence from last to
    first, it has the same length, and reversing twice gives the sequence
    back. *)
Theorem reverse_sequence (s : list Z) :
  reverse s = rev s /\
  length (reverse s) = length s /\
  reverse (reverse s) = s /\
  (forall i x, s !! i = Some x -> reverse s !! (length s - 1 - i)%nat = Some x).
Proof.
  rewrite !reverse_rev. split; [done|]. split; [apply length_rev|].
  split; [apply rev_involutive|].
  intros i x Hi. pose proof (lookup_lt_Some _ _ _ Hi) as Hlt.
  rewrite rev_alt. change (rev_append s []) with (list.reverse s).
  rewrite reverse_lookup by lia.
  by replace (length s - S (length s - 1 - i))%nat with i by lia.
Qed.

Lemma append_bar_inj (a a' x x' : string) :
  countByte "|" a = 0%nat -> countByte "|" a' = 0%nat ->
  a +:+ String "|" x = a' +:+ String "|" x' -> a = a' /\ x = x'.
Proof.
  revert a'. induction a as [|c a IH]; intros [|c' a']; simpl.
  - by intros _ _ [= ->].
  - intros _ H [= <- _]. by rewrite Ascii.eqb_refl in H.
  - intros H _ [= -> _]. by rewrite Ascii.eqb_refl in H.
  - intros H H' [= <- E].
    destruct (Ascii.eqb c "|"); [done|].
    destruct (IH a' H H' E) as [-> ->]. done.
Qed.

Lemma connectionKey_endpoints (a b : Connection) :
  countByte "|" (Family a) = 0%nat -> countByte "|" (Type_ a) = 0%nat ->
  countByte "|" (LocalAddress a) = 0%nat ->
  countByte "|" (Family b) = 0%nat -> countByte "|" (Type_ b) = 0%nat ->
  countByte "|" (LocalAddress b) = 0%nat ->
  connectionKey a = connectionKey b <-> sameEndpoints a b.
Proof.
  intros Fa Ta La Fb Tb Lb. unfold connectionKey, sameEndpoints. cbn [Go.Join].
  change ("|" +:+ ?s) with (String "|" s). split.
  - intros H.
    apply append_bar_inj in H as [Hf H]; [|done..].
    apply append_bar_inj in H as [Ht H]; [|done..].
    apply append_bar_inj in H as [Hl Hr]; [|done..]. done.
  - intros (-> & -> & -> & ->). done.
Qed.

(** X29.  Two connections whose family, type and local address hold no
    [|] have the same key exactly when they agree on family, type, local
    address and remote address. *)
Theorem connectionKey_same_endpoints (a b : Connection) :
  countByte "|" (Family a) = 0%nat -> countByte "|" (Type_ a) = 0%nat ->
  countByte "|" (LocalAddress a) = 0%nat ->
  countByte "|" (Family b) = 0%nat -> countByte "|" (Type_ b) = 0%nat ->
  countByte "|" (LocalAddress b) = 0%nat ->
  connectionKey a = connectionKey b <-> sameEndpoints a b.
Proof. apply connectionKey_endpoints. Qed.

Lemma connectionKey_same_endpoints_witness :
  connectionKey exampleEstablished = connectionKey exampleCloseWait <->
  sameEndpoints exampleEstablished exampleCloseWait.
Proof.
  apply (connectionKey_same_endpoints exampleEstablished exampleCloseWait);
    reflexivity.
Defined.

(** ** The addresses of real tables hold no [|] *)

Lemma countByte_app (b : ascii) (s t : string) :
  countByte b (s +:+ t) = (countByte b s + countByte b t)%nat.
Proof.
  induction s as [|c s IH]; [done|]. simpl. destruct (Ascii.eqb c b); simpl; lia.
Qed.

Lemma uint_string_no_bar (d : Decimal.uint) :
  countByte "|" (NilEmpty.string_of_uint d) = 0%nat.
Proof. induction d; simpl; done. Qed.

Lemma Itoa_no_bar (n : Z) : countByte "|" (Go.Itoa n) = 0%nat.
Proof.
  assert (Hu : forall d, countByte "|" (NilZero.string_of_uint d) = 0%nat).
  { intros d. destruct d; try apply (uint_string_no_bar (_ d)); done. }
  unfold Go.Itoa. destruct n as [|p|p]; cbn [Z.to_int NilZero.string_of_int].
  - apply Hu.
  - apply Hu.
  - simpl. apply Hu.
Qed.

Lemma hexDigit_no_bar (v : Z) :
  0 <= v < 16 -> Ascii.eqb (Go.hexDigit v) "|" = false.
Proof.
  intros Hv.
  assert (H : v = 0 \/ v = 1 \/ v = 2 \/ v = 3 \/ v = 4 \/ v = 5 \/ v = 6 \/ v = 7 \/
              v = 8 \/ v = 9 \/ v = 10 \/ v = 11 \/ v = 12 \/ v = 13 \/ v = 14 \/ v = 15)
    by lia.
  repeat destruct H as [->|H]; try subst v; reflexivity.
Qed.

Lemma land_15_range (x : Z) : 0 <= Z.land x 15 < 16.
Proof.
  change 15 with (Z.ones 4). rewrite Z.land_ones by lia.
  change (2 ^ 4) with 16. apply Z.mod_pos_bound. lia.
Qed.

Lemma shiftr_4_range (x : Z) : 0 <= x < 256 -> 0 <= Z.shiftr x 4 < 16.
Proof.
  intros Hx. rewrite Z.shiftr_div_pow2 by lia. change (2 ^ 4) with 16. split.
  - apply Z.div_pos; lia.
  - apply Z.div_lt_upper_bound; lia.
Qed.

Lemma hexString_no_bar (bytes : list Z) :
  Forall (fun x => 0 <= x < 256) bytes -> countByte "|" (Go.hexString bytes) = 0%nat.
Proof.
  induction 1 as [|x bytes Hx _ IH]; [done|]. cbn [Go.hexString countByte].
  by rewrite (hexDigit_no_bar _ (shiftr_4_range x Hx)),
    (hexDigit_no_bar _ (land_15_range x)).
Qed.

Lemma appendHexFrom_no_bar (j : nat) (i : Z) (dst : string) :
  countByte "|" dst = 0%nat -> countByte "|" (Go.appendHexFrom j i dst) = 0%nat.
Proof.
  revert dst. induction j as [|j IH]; intros dst Hdst; cbn [Go.appendHexFrom].
  - destruct (0 <? _); [|done]. rewrite countByte_app, Hdst. cbn [countByte].
    by rewrite (hexDigit_no_bar _ (land_15_range _)).
  - apply IH. destruct (0 <? _); [|done]. rewrite countByte_app, Hdst.
    cbn [countByte]. by rewrite (hexDigit_no_bar _ (land_15_range _)).
Qed.

Lemma appendHex_no_bar (dst : string) (i : Z) :
  countByte "|" dst = 0%nat -> countByte "|" (Go.appendHex dst i) = 0%nat.
Proof.
  intros Hdst. unfold Go.appendHex. destruct (i =? 0).
  - by rewrite countByte_app, Hdst.
  - by apply appendHexFrom_no_bar.
Qed.

Lemma printGroups_no_bar (fuel : nat) (p : list Z) (i e0 e1 : Z) (b : string) :
  countByte "|" b = 0%nat -> countByte "|" (Go.printGroups fuel p i e0 e1 b) = 0%nat.
Proof.
  revert i b. induction fuel as [|fuel IH]; intros i b Hb; cbn [Go.printGroups];
    [done|].
  destruct (i <? Go.IPv6len); [|done].
  destruct (i =? e0).
  - assert (Hb' : countByte "|" (b +:+ "::") = 0%nat) by (by rewrite countByte_app, Hb).
    destruct (Go.IPv6len <=? e1); [done|]. by apply IH, appendHex_no_bar.
  - apply IH, appendHex_no_bar. destruct (0 <? i); [|done].
    by rewrite countByte_app, Hb.
Qed.

Lemma IP_String_no_bar (ip : list Z) :
  Forall (fun x => 0 <= x < 256) ip -> countByte "|" (Go.IP_String ip) = 0%nat.
Proof.
  intros Hip. unfold Go.IP_String.
  destruct (Z.of_nat (length ip) =? 0); [done|].
  destruct (Z.of_nat (length (Go.To4 ip)) =? Go.IPv4len).
  - rewrite !countByte_app, !Itoa_no_bar. done.
  - destruct (negb _).
    + rewrite countByte_app. by rewrite hexString_no_bar.
    + destruct (Go.longestZeroRun _ _ _ _ _) as [e0 e1].
      destruct (if e1 - e0 <=? 2 then _ else _) as [e0' e1'].
      by apply printGroups_no_bar.
Qed.

Lemma fromHexChar_range (c : ascii) (v : Z) : Go.fromHexChar c = Some v -> 0 <= v < 16.
Proof.
  intros H. destruct (isHexDigit c) eqn:E.
  - destruct (hex_digit_facts c E) as (Hv & _ & Hr & _). congruence.
  - by rewrite (not_hex_digit c E) in H.
Qed.

Lemma DecodeString_bytes (n : nat) (s : string) (bytes : list Z) (err : option error) :
  (String.length s <= n)%nat ->
  Go.DecodeString s = (bytes, err) -> Forall (fun x => 0 <= x < 256) bytes.
Proof.
  revert s bytes err. induction n as [|n IH]; intros s bytes err Hlen.
  - destruct s; [|simpl in Hlen; lia]. by intros [= <- _].
  - destruct s as [|p [|q r]]; cbn [Go.DecodeString].
    + by intros [= <- _].
    + destruct (Go.fromHexChar p); by intros [= <- _].
    + destruct (Go.fromHexChar p) as [a|] eqn:Ea; [|by intros [= <- _]].
      destruct (Go.fromHexChar q) as [b|] eqn:Eb; [|by intros [= <- _]].
      destruct (Go.DecodeString r) as [rest e] eqn:Er. intros [= <- _].
      constructor.
      * apply fromHexChar_range in Ea, Eb. rewrite nibbles_lor by done. lia.
      * apply (IH r rest e); [simpl in Hlen; lia|done].
Qed.

(** X30.  An address [decodeAddress] returns holds no [|].  So two
    connections that [GetConnections] returned, for any processes and file
    systems, have the same key exactly when they agree on family, type,
    local address and remote address: the key never merges two different
    sockets of real tables. *)
Theorem GetConnections_keys_faithful (fs fs' : FileSystem) (root root' : string)
    (pid pid' : Z) (a b : Connection) :
  a ∈ (GetConnections fs root pid).1 ->
  b ∈ (GetConnections fs' root' pid').1 ->
  (forall family src out,
     decodeAddress family src = (out, None) -> countByte "|" out = 0%nat) /\
  (connectionKey a = connectionKey b <-> sameEndpoints a b).
Proof.
  assert (Hdec : forall family src out,
             decodeAddress family src = (out, None) -> countByte "|" out = 0%nat).
  { intros family src out. unfold decodeAddress.
    destruct (negb _); [discriminate|].
    destruct (Go.ParseInt _) as [p [e|]]; [discriminate|].
    destruct (Go.DecodeString _) as [bs [e|]] eqn:Ed; [discriminate|].
    intros [= <-]. rewrite !countByte_app, Itoa_no_bar.
    rewrite IP_String_no_bar; [done|].
    destruct (String.eqb family "inet"); [|done].
    rewrite reverse_rev. apply Forall_forall. intros x Hx.
    apply list_elem_of_In, in_rev, list_elem_of_In in Hx.
    pose proof (DecodeString_bytes _ _ _ _ (le_n _) Ed) as Hall.
    by apply (proj1 (Forall_forall _ _) Hall). }
  assert (Hconn : forall f r p c, c ∈ (GetConnections f r p).1 ->
             countByte "|" (Family c) = 0%nat /\ countByte "|" (Type_ c) = 0%nat /\
             countByte "|" (LocalAddress c) = 0%nat).
  { intros f r p c. rewrite GetConnections_run. cbv zeta. cbn [fst].
    unfold kindResults, connectionKindTypes. cbn [fmap list_fmap flat_map].
    rewrite app_nil_r. fold tcpKind udpKind.
    intros [Hc|Hc]%elem_of_app;
      apply parsed_elem, processINET_elem in Hc as [line Hc];
      destruct (processLine_row _ line c Hc) as (_ & -> & -> & _);
      destruct (processLine_decoded _ line c Hc) as (Hl & _);
      (split; [done|]); (split; [done|]); by apply Hdec in Hl. }
  intros Ha Hb. split; [exact Hdec|].
  destruct (Hconn _ _ _ _ Ha) as (? & ? & ?), (Hconn _ _ _ _ Hb) as (? & ? & ?).
  by apply connectionKey_endpoints.
Qed.

Lemma GetConnections_keys_faithful_witness :
  connectionKey exampleListen = connectionKey exampleListen <->
  sameEndpoints exampleListen exampleListen.
Proof.
  refine (proj2 (GetConnections_keys_faithful exampleFS exampleFS3 "" "/proc" 7 7
                   exampleListen exampleListen _ _)).
  - vm_compute. left.
  - vm_compute. left.
Defined.
